(** * Audio visualizer: analysis pipeline, beat detector, band aggregation,
      particle system and mode controller of [audio_visualizer.py].

    Numbers.  Python floats are modelled as real numbers ([R]): rounding is
    abstracted away, every other step of the arithmetic is kept.  Python
    integers are [Z]; lengths and indices are [nat].  A NaN produced by
    [np.mean] on an empty slice is [None]; every comparison with it is false,
    as in Python.  An exception raised by the code is [None] in the result of
    the function that raises it.

    The pygame surface is not part of the modelled state: drawing calls only
    write to it, nothing in the program reads it back.  The field
    [amplitude_history] is set in [__init__] and never used again; it is
    left out of the record. *)

From Stdlib Require Import Reals Lra Lia ZArith List Bool Arith.
Import ListNotations.
Open Scope R_scope.

(** ** Constants of [AudioVisualizer.__init__] *)

Definition CHUNK : Z := 2048.
Definition RATE : Z := 44100.

(** pygame key codes (SDL: the ASCII code of the key). *)
Definition K_ESCAPE : Z := 27.
Definition K_SPACE : Z := 32.
Definition K_0 : Z := 48.
Definition K_1 : Z := 49.
Definition K_5 : Z := 53.

(** ** numpy and deque helpers *)

(** [np.sum] of a one-dimensional array. *)
Definition np_sum (l : list R) : R := fold_right Rplus 0 l.

(** [np.mean]: the sum divided by the number of elements; NaN ([None]) on an
    empty array. *)
Definition np_mean (l : list R) : option R :=
  match l with
  | [] => None
  | _ :: _ => Some (np_sum l / INR (length l))
  end.

(** [deque(maxlen=n).append(x)]: the oldest entries are dropped once full. *)
Definition deque_append {A : Type} (maxlen : nat) (d : list A) (x : A) : list A :=
  skipn (length (d ++ [x]) - maxlen) (d ++ [x]).

(** Python slice [l[start:stop]] for [0 <= start <= stop], clamped to [l]. *)
Definition py_slice {A : Type} (l : list A) (start stop : nat) : list A :=
  firstn (stop - start) (skipn start l).

(** [a > b] on floats as a boolean. *)
Definition Rgtb (a b : R) : bool := if Rgt_dec a b then true else false.

(** Comparison against a possibly-NaN right operand. *)
Definition gt_opt (a : R) (b : option R) : bool :=
  match b with
  | Some v => Rgtb a v
  | None => false
  end.

(** ** State *)

Record Particle := mkParticle {
  px : R;
  py : R;
  vx : R;
  vy : R;
  life : Z;
  phue : R
}.

Record AudioVisualizer := mkViz {
  WIDTH : Z;
  HEIGHT : Z;
  mode : Z;
  paused : bool;
  hue : R;
  beat_history : list R;
  beat_threshold : R;
  beat_detected : bool;
  beat_cooldown : Z;
  freq_smooth : list (list R);
  particles : list Particle
}.

(** [AudioVisualizer.__init__(width, height)]. *)
Definition init (width height : Z) : AudioVisualizer :=
  {| WIDTH := width; HEIGHT := height;
     mode := 1; paused := false; hue := 0;
     beat_history := []; beat_threshold := 13 / 10;
     beat_detected := false; beat_cooldown := 0;
     freq_smooth := []; particles := [] |}.

Definition set_mode (v : Z) (s : AudioVisualizer) : AudioVisualizer :=
  mkViz (WIDTH s) (HEIGHT s) v (paused s) (hue s) (beat_history s)
        (beat_threshold s) (beat_detected s) (beat_cooldown s) (freq_smooth s)
        (particles s).

Definition set_paused (v : bool) (s : AudioVisualizer) : AudioVisualizer :=
  mkViz (WIDTH s) (HEIGHT s) (mode s) v (hue s) (beat_history s)
        (beat_threshold s) (beat_detected s) (beat_cooldown s) (freq_smooth s)
        (particles s).

Definition set_hue (v : R) (s : AudioVisualizer) : AudioVisualizer :=
  mkViz (WIDTH s) (HEIGHT s) (mode s) (paused s) v (beat_history s)
        (beat_threshold s) (beat_detected s) (beat_cooldown s) (freq_smooth s)
        (particles s).

Definition set_beat_history (v : list R) (s : AudioVisualizer) : AudioVisualizer :=
  mkViz (WIDTH s) (HEIGHT s) (mode s) (paused s) (hue s) v
        (beat_threshold s) (beat_detected s) (beat_cooldown s) (freq_smooth s)
        (particles s).

Definition set_beat_detected (v : bool) (s : AudioVisualizer) : AudioVisualizer :=
  mkViz (WIDTH s) (HEIGHT s) (mode s) (paused s) (hue s) (beat_history s)
        (beat_threshold s) v (beat_cooldown s) (freq_smooth s)
        (particles s).

Definition set_beat_cooldown (v : Z) (s : AudioVisualizer) : AudioVisualizer :=
  mkViz (WIDTH s) (HEIGHT s) (mode s) (paused s) (hue s) (beat_history s)
        (beat_threshold s) (beat_detected s) v (freq_smooth s)
        (particles s).

Definition set_freq_smooth (v : list (list R)) (s : AudioVisualizer) : AudioVisualizer :=
  mkViz (WIDTH s) (HEIGHT s) (mode s) (paused s) (hue s) (beat_history s)
        (beat_threshold s) (beat_detected s) (beat_cooldown s) v
        (particles s).

Definition set_particles (v : list Particle) (s : AudioVisualizer) : AudioVisualizer :=
  mkViz (WIDTH s) (HEIGHT s) (mode s) (paused s) (hue s) (beat_history s)
        (beat_threshold s) (beat_detected s) (beat_cooldown s) (freq_smooth s)
        v.

(** ** Beat detector: [AudioVisualizer.detect_beat] *)

(** [int(200 * self.CHUNK / self.RATE)]: the operands are positive, so the
    truncation is the integer quotient. *)
Definition bass_range : nat := Z.to_nat (200 * CHUNK / RATE).

Definition bass_energy (fft_data : list R) : R :=
  np_sum (py_slice fft_data 0 bass_range).

Definition detect_beat (self : AudioVisualizer) (fft_data : list R)
  : bool * AudioVisualizer :=
  let e := bass_energy fft_data in
  let self1 := set_beat_history (deque_append 20 (beat_history self) e) self in
  let avg_energy := np_mean (beat_history self1) in
  if (0 <? beat_cooldown self1)%Z then
    (false, set_beat_cooldown (beat_cooldown self1 - 1) self1)
  else if gt_opt e (option_map (fun a => a * beat_threshold self1) avg_energy) then
    (true, set_beat_cooldown 10 self1)
  else
    (false, self1).

(** The detector run over a sequence of spectra, one call per tick; the
    flags are listed in tick order. *)
Fixpoint detect_beats (self : AudioVisualizer) (ticks : list (list R))
  : list bool * AudioVisualizer :=
  match ticks with
  | [] => ([], self)
  | s :: rest =>
      let '(b, self1) := detect_beat self s in
      let '(bs, self2) := detect_beats self1 rest in
      (b :: bs, self2)
  end.

(** ** Band aggregation: [AudioVisualizer.get_frequency_bands] *)

(** [None] is the [ZeroDivisionError] of [len(fft_data) // num_bands]; a band
    of the result is [None] when its slice is empty ([np.mean] gives NaN). *)
Definition get_frequency_bands (fft_data : list R) (num_bands : nat)
  : option (list (option R)) :=
  if Nat.eqb num_bands 0 then None
  else
    let band_size := (length fft_data / num_bands)%nat in
    Some (map (fun i =>
                 let start := (i * band_size)%nat in
                 let stop := (start + band_size)%nat in
                 np_mean (py_slice fft_data start stop))
              (seq 0 num_bands)).

(** The band of the specification, in its own words: the arithmetic mean of
    the elements at the indices [i*w <= j < (i+1)*w] of the series. *)
Definition slice_mean_spec (series : list R) (w i : nat) : R :=
  np_sum (map (fun j => nth j series 0) (seq (i * w) ((i + 1) * w - i * w)))
  / INR w.

(** ** Spectral analyzer: [AudioVisualizer.analyze_audio] *)

(** [np.hamming(M)]. *)
Definition hamming (M : nat) : list R :=
  match M with
  | 1%nat => [1]
  | _ => map (fun n => 54 / 100 - 46 / 100 * cos (2 * PI * INR n / INR (M - 1)))
             (seq 0 M)
  end.

(** Element-wise product of two arrays of the same length. *)
Fixpoint np_mul (a b : list R) : list R :=
  match a, b with
  | x :: a', y :: b' => x * y :: np_mul a' b'
  | _, _ => []
  end.

(** [np.fft.fft] followed by [np.abs]: output [k] of the discrete Fourier
    transform is the sum over [n] of [x_n * exp(-2 pi i k n / N)]; its real
    and imaginary parts and its modulus are written out. *)
Definition dft_re (x : list R) (k : nat) : R :=
  np_sum (map (fun n => nth n x 0 * cos (2 * PI * INR k * INR n / INR (length x)))
              (seq 0 (length x))).

Definition dft_im (x : list R) (k : nat) : R :=
  np_sum (map (fun n => - (nth n x 0 * sin (2 * PI * INR k * INR n / INR (length x))))
              (seq 0 (length x))).

Definition fft_abs (x : list R) : list R :=
  map (fun k => sqrt (dft_re x k * dft_re x k + dft_im x k * dft_im x k))
      (seq 0 (length x)).

Definition log10 (x : R) : R := ln x / ln 10.

(** Logarithmic scaling of one normalised magnitude. *)
Definition log_compress (magnitude : R) : R := log10 (magnitude + 1) * 20.

(** Lines 76-86: window, transform, keep the first [CHUNK // 2] magnitudes,
    normalise by [CHUNK / 2], compress.  [None]: numpy refuses an empty
    frame. *)
Definition compressed_spectrum (data : list Z) : option (list R) :=
  match data with
  | [] => None
  | _ :: _ =>
      let windowed := np_mul (map IZR data) (hamming (length data)) in
      let fft_magnitude := firstn (Z.to_nat (CHUNK / 2)) (fft_abs windowed) in
      let normalised := map (fun m => m / (IZR CHUNK / 2)) fft_magnitude in
      Some (map log_compress normalised)
  end.

(** [np.mean(rows, axis=0)]: the element-wise mean of the arrays held by the
    deque.  [None]: numpy refuses arrays of different lengths (and the deque
    is never empty where this is called). *)
Definition mean_axis0 (rows : list (list R)) : option (list R) :=
  match rows with
  | [] => None
  | r :: _ =>
      if forallb (fun r' => Nat.eqb (length r') (length r)) rows then
        Some (map (fun j => np_sum (map (fun r' => nth j r' 0) rows)
                            / INR (length rows))
                  (seq 0 (length r)))
      else None
  end.

Definition analyze_audio (self : AudioVisualizer) (data : list Z)
  : option (list R * AudioVisualizer) :=
  match compressed_spectrum data with
  | None => None
  | Some fft_magnitude =>
      let self1 :=
        set_freq_smooth (deque_append 3 (freq_smooth self) fft_magnitude) self in
      match mean_axis0 (freq_smooth self1) with
      | None => None
      | Some smoothed => Some (smoothed, self1)
      end
  end.

(** ** Mode 3: [AudioVisualizer.draw_mode_3_waveform] *)

(** [range(0, stop, step)] for [step > 0]. *)
Definition py_range_step (stop step : nat) : list nat :=
  map (fun k => (k * step)%nat) (seq 0 ((stop + step - 1) / step)).

(** The polyline handed to [pygame.draw.lines].  [None]: [ZeroDivisionError]
    for a zero width, [ValueError] of [range] for a zero step.  The sample is
    an int16 and [HEIGHT // 3] an integer, so
    [int((a / 32768.0) * (HEIGHT // 3))] is the quotient truncated towards
    zero. *)
Definition draw_mode_3_waveform (self : AudioVisualizer) (audio_data : list Z)
  : option (list (Z * Z)) :=
  if (WIDTH self =? 0)%Z then None
  else
    let step := (Z.of_nat (length audio_data) / WIDTH self)%Z in
    if (step =? 0)%Z then None
    else if (step <? 0)%Z then Some []
    else
      Some (map (fun i =>
                   let x := (Z.of_nat i / step)%Z in
                   let y := (HEIGHT self / 2
                             + Z.quot (nth i audio_data 0 * (HEIGHT self / 3)) 32768)%Z in
                   (x, y))
                (py_range_step (length audio_data) (Z.to_nat step))).

(** ** Mode 5: [AudioVisualizer.draw_mode_5_particles] *)

(** [x % 1.0] for a float [x]. *)
Definition py_mod1 (x : R) : R := frac_part x.

(** The dict appended at lines 246-253 for band [i] of [n]. *)
Definition new_particle (self : AudioVisualizer) (i n : nat) (magnitude : R)
  : Particle :=
  let angle := INR i / INR n * 2 * PI in
  let speed := magnitude * (5 / 10) in
  {| px := IZR (WIDTH self / 2);
     py := IZR (HEIGHT self / 2);
     vx := cos angle * speed;
     vy := sin angle * speed;
     life := 60;
     phue := py_mod1 (hue self + INR i / INR n) |}.

(** The loop of lines 242-253 over [enumerate(bands)]. *)
Definition spawn_from_bands (self : AudioVisualizer) (bands : list (option R))
  : list Particle :=
  flat_map (fun im : nat * option R =>
              match snd im with
              | Some magnitude =>
                  if Rgtb magnitude 5
                  then [new_particle self (fst im) (length bands) magnitude]
                  else []
              | None => []
              end)
           (combine (seq 0 (length bands)) bands).

(** Lines 240-253: spawn on beat. *)
Definition spawn_particles (self : AudioVisualizer) (fft_data : list R)
  : option AudioVisualizer :=
  if beat_detected self then
    match get_frequency_bands fft_data 32 with
    | None => None
    | Some bands =>
        Some (set_particles (particles self ++ spawn_from_bands self bands) self)
    end
  else Some self.

(** Lines 257-260: one integration step of a particle. *)
Definition particle_step (p : Particle) : Particle :=
  {| px := px p + vx p;
     py := py p + vy p;
     vx := vx p;
     vy := vy p + 2 / 10;
     life := life p - 1;
     phue := phue p |}.

(** Equality of two particle dicts, as [==] decides it: field by field. *)
Definition particle_eq_dec (p q : Particle) : {p = q} + {p <> q}.
Proof.
  decide equality; try apply Req_dec_T; apply Z.eq_dec.
Defined.

(** [list.remove(x)]: drops the first item equal to [x]; [None] is the
    [ValueError] raised when there is none. *)
Fixpoint list_remove (x : Particle) (l : list Particle) : option (list Particle) :=
  match l with
  | [] => None
  | y :: t =>
      if particle_eq_dec y x then Some t
      else option_map (cons y) (list_remove x t)
  end.

(** In-place mutation of the object at index [i] of the list. *)
Definition set_nth (i : nat) (p : Particle) (l : list Particle) : list Particle :=
  firstn i l ++ p :: skipn (S i) l.

(** The loop of lines 256-264.  It walks a copy of the list and mutates the
    objects, which the live list shares; [n] is the number of objects of the
    copy still to visit and [i] the index in the live list of the next one.
    [remove] drops the first item of the live list that is equal to the
    visited one, which sits at the cursor or before it, so the next object is
    found at the same index after a removal and one further otherwise. *)
Fixpoint update_loop (n i : nat) (live : list Particle) : option (list Particle) :=
  match n with
  | O => Some live
  | S n' =>
      match nth_error live i with
      | None => None
      | Some p =>
          let p' := particle_step p in
          let live' := set_nth i p' live in
          if (life p' <=? 0)%Z then
            match list_remove p' live' with
            | None => None
            | Some live'' => update_loop n' i live''
            end
          else update_loop n' (S i) live'
      end
  end.

Definition update_particles (ps : list Particle) : option (list Particle) :=
  update_loop (length ps) 0 ps.

Definition draw_mode_5_particles (self : AudioVisualizer) (fft_data : list R)
  : option AudioVisualizer :=
  match spawn_particles self fft_data with
  | None => None
  | Some self1 =>
      option_map (fun ps => set_particles ps self1)
                 (update_particles (particles self1))
  end.

(** The particle system on its own: [k] successive updates. *)
Fixpoint update_n (k : nat) (ps : list Particle) : option (list Particle) :=
  match k with
  | O => Some ps
  | S k' =>
      match update_particles ps with
      | None => None
      | Some ps' => update_n k' ps'
      end
  end.

(** ** Drawing: what the four band-driven modes hand to pygame

    The calls to [pygame.draw] are modelled by the primitives they are given,
    in the order of the calls.  [None] is the [ValueError] of [int] on a NaN
    band (or the [ZeroDivisionError] named at the function). *)

(** [int(x)] for a float: truncation towards zero. *)
Definition py_int (r : R) : Z :=
  if Rle_dec 0 r then Int_part r else (- Int_part (- r))%Z.

(** [colorsys.hsv_to_rgb]. *)
Definition hsv_to_rgb (h s v : R) : R * R * R :=
  if Req_dec_T s 0 then (v, v, v)
  else
    let i := py_int (h * 6) in
    let f := h * 6 - IZR i in
    let p := v * (1 - s) in
    let q := v * (1 - s * f) in
    let t := v * (1 - s * (1 - f)) in
    let i6 := (i mod 6)%Z in
    if (i6 =? 0)%Z then (v, t, p)
    else if (i6 =? 1)%Z then (q, v, p)
    else if (i6 =? 2)%Z then (p, v, t)
    else if (i6 =? 3)%Z then (p, q, v)
    else if (i6 =? 4)%Z then (t, p, v)
    else (v, p, q).

(** [tuple(int(c * 255) for c in rgb)]. *)
Definition rgb255 (rgb : R * R * R) : Z * Z * Z :=
  let '(r, g, b) := rgb in
  (py_int (r * 255), py_int (g * 255), py_int (b * 255)).

(** [tuple(int(c * alpha) for c in color)]. *)
Definition fade (color : Z * Z * Z) (alpha : R) : Z * Z * Z :=
  let '(r, g, b) := color in
  (py_int (IZR r * alpha), py_int (IZR g * alpha), py_int (IZR b * alpha)).

(** A loop body run over [enumerate(bands)]; it raises at the first band on
    which the body raises. *)
Fixpoint for_bands {A : Type} (body : nat -> R -> A) (i : nat)
  (bands : list (option R)) : option (list A) :=
  match bands with
  | [] => Some []
  | None :: _ => None
  | Some magnitude :: rest =>
      option_map (cons (body i magnitude)) (for_bands body (S i) rest)
  end.

(** A segment: colour, start, end. *)
Definition Segment : Type := (Z * Z * Z) * (Z * Z) * (Z * Z).

(** [AudioVisualizer.draw_mode_1_circular]: one segment per band. *)
Definition draw_mode_1_circular (self : AudioVisualizer) (fft_data : list R)
  : option (list Segment) :=
  match get_frequency_bands fft_data 120 with
  | None => None
  | Some bands =>
      let center_x := (WIDTH self / 2)%Z in
      let center_y := (HEIGHT self / 2)%Z in
      let radius := (Z.min (WIDTH self) (HEIGHT self) / 3)%Z in
      for_bands
        (fun i magnitude =>
           let angle := INR i / INR (length bands) * 2 * PI in
           let hue' := py_mod1 (hue self + INR i / INR (length bands)) in
           let color := rgb255 (hsv_to_rgb hue' (8 / 10) (9 / 10)) in
           let bar_length :=
             if beat_detected self then magnitude * 3 * (15 / 10)
             else magnitude * 3 in
           let x1 := (center_x + py_int (IZR radius * cos angle))%Z in
           let y1 := (center_y + py_int (IZR radius * sin angle))%Z in
           let x2 := (center_x + py_int ((IZR radius + bar_length) * cos angle))%Z in
           let y2 := (center_y + py_int ((IZR radius + bar_length) * sin angle))%Z in
           (color, (x1, y1), (x2, y2)))
        0 bands
  end.

(** [range(n)] for an integer [n]: empty when [n <= 0]. *)
Definition py_range (n : Z) : list Z := map Z.of_nat (seq 0 (Z.to_nat n)).

(** [AudioVisualizer.draw_mode_2_spectrum]: for each bar, its rows from the
    bottom up.  [None] also for a zero [HEIGHT] (division by zero in
    [intensity]). *)
Definition draw_mode_2_spectrum (self : AudioVisualizer) (fft_data : list R)
  : option (list (list Segment)) :=
  match get_frequency_bands fft_data 80 with
  | None => None
  | Some bands =>
      if (HEIGHT self =? 0)%Z then
        match bands with [] => Some [] | _ :: _ => None end
      else
        let bar_width := (WIDTH self / Z.of_nat (length bands))%Z in
        for_bands
          (fun i magnitude =>
             let bar_height := Rmin (magnitude * 4) (IZR (HEIGHT self - 20)) in
             let intensity := bar_height / IZR (HEIGHT self) in
             let hue' := py_mod1 (6 / 10 - intensity * (6 / 10)) in
             let color := rgb255 (hsv_to_rgb hue' (9 / 10) (9 / 10)) in
             let x := (Z.of_nat i * bar_width)%Z in
             map (fun j =>
                    let alpha := 1 - IZR j / bar_height * (3 / 10) in
                    (fade color alpha,
                     (x, (HEIGHT self - j)%Z),
                     ((x + bar_width - 2)%Z, (HEIGHT self - j)%Z)))
                 (py_range (py_int bar_height)))
          0 bands
  end.

(** [AudioVisualizer.draw_mode_4_radial_wave]: the three polylines, each
    with its colour.  [None] also for the [IndexError] of [points[0]] on an
    empty ring.  There are 200 bands, so a ring has 201 points and the test
    [len(points) > 2] before the draw call always holds. *)
Definition draw_mode_4_radial_wave (self : AudioVisualizer) (fft_data : list R)
  : option (list ((Z * Z * Z) * list (Z * Z))) :=
  match get_frequency_bands fft_data 200 with
  | None => None
  | Some bands =>
      let center_x := (WIDTH self / 2)%Z in
      let center_y := (HEIGHT self / 2)%Z in
      let ring (wave : Z) : option ((Z * Z * Z) * list (Z * Z)) :=
        let base_radius := (100 + wave * 80)%Z in
        match for_bands
                (fun i magnitude =>
                   let angle := INR i / INR (length bands) * 2 * PI in
                   let radius :=
                     IZR base_radius + magnitude * (2 - IZR wave * (5 / 10)) in
                   ((center_x + py_int (radius * cos angle))%Z,
                    (center_y + py_int (radius * sin angle))%Z))
                0 bands with
        | None => None
        | Some [] => None
        | Some (first :: others) =>
            let points := (first :: others) ++ [first] in
            let hue' := py_mod1 (hue self + IZR wave * (2 / 10)) in
            Some (rgb255 (hsv_to_rgb hue' (7 / 10) (8 / 10)), points)
        end in
      match ring 0%Z, ring 1%Z, ring 2%Z with
      | Some r0, Some r1, Some r2 => Some [r0; r1; r2]
      | _, _, _ => None
      end
  end.

(** ** Main loop: [AudioVisualizer.run] *)

Inductive Event :=
| QUIT
| KEYDOWN (key : Z)
| OTHER.

(** Lines 282-291, on the pair of the local [running] and the object. *)
Definition handle_event (rs : bool * AudioVisualizer) (ev : Event)
  : bool * AudioVisualizer :=
  let '(running, self) := rs in
  match ev with
  | QUIT => (false, self)
  | KEYDOWN key =>
      if (key =? K_ESCAPE)%Z then (false, self)
      else if (key =? K_SPACE)%Z then
        (running, set_paused (negb (paused self)) self)
      else if ((K_1 <=? key) && (key <=? K_5))%Z then
        (running, set_particles [] (set_mode (key - K_0) self))
      else (running, self)
  | OTHER => (running, self)
  end.

(** Line 281: the loop over [pygame.event.get()]. *)
Definition handle_events (rs : bool * AudioVisualizer) (events : list Event)
  : bool * AudioVisualizer :=
  fold_left handle_event events rs.

(** Lines 293-323: the body of one tick, after the events.  [audio_data] is
    the frame [get_audio_data] returns; it is read only when not paused.
    The builders of modes 1 to 4 leave the object as it is; the tick raises
    when the builder of the current mode raises. *)
Definition tick (self : AudioVisualizer) (audio_data : list Z)
  : option AudioVisualizer :=
  if negb (paused self) then
    match analyze_audio self audio_data with
    | None => None
    | Some (fft_data, self1) =>
        let '(beat, self2) := detect_beat self1 fft_data in
        let self3 := set_beat_detected beat self2 in
        let self4 := set_hue (py_mod1 (hue self3 + 2 / 1000)) self3 in
        if (mode self4 =? 1)%Z then
          option_map (fun _ => self4) (draw_mode_1_circular self4 fft_data)
        else if (mode self4 =? 2)%Z then
          option_map (fun _ => self4) (draw_mode_2_spectrum self4 fft_data)
        else if (mode self4 =? 3)%Z then
          option_map (fun _ => self4) (draw_mode_3_waveform self4 audio_data)
        else if (mode self4 =? 4)%Z then
          option_map (fun _ => self4) (draw_mode_4_radial_wave self4 fft_data)
        else if (mode self4 =? 5)%Z then
          draw_mode_5_particles self4 fft_data
        else Some self4
    end
  else Some self.

(** One pass of the [while running] loop. *)
Definition run_iteration (rs : bool * AudioVisualizer)
  (input : list Event * list Z) : option (bool * AudioVisualizer) :=
  let '(running, self) := handle_events rs (fst input) in
  option_map (fun self' => (running, self')) (tick self (snd input)).

(** The loop itself, over the inputs of the successive passes; it stops
    after the pass that cleared [running]. *)
Fixpoint run_loop (self : AudioVisualizer) (inputs : list (list Event * list Z))
  : option AudioVisualizer :=
  match inputs with
  | [] => Some self
  | input :: rest =>
      match run_iteration (true, self) input with
      | None => None
      | Some (running, self') =>
          if running then run_loop self' rest else Some self'
      end
  end.

(** An event other than a key between 1 and 5. *)
Definition not_select (ev : Event) : Prop :=
  match ev with
  | KEYDOWN key => ((K_1 <=? key) && (key <=? K_5))%Z = false
  | _ => True
  end.

(** The update of the specification, in its own words: every particle is
    integrated and loses one unit of life, and the particles whose life is
    then zero or less are removed. *)
Definition update_spec (ps : list Particle) : list Particle :=
  filter (fun p => (0 <? life p)%Z) (map particle_step ps).

(** The bands that spawn a particle: those with magnitude above 5. *)
Definition loud (m : option R) : bool :=
  match m with
  | Some magnitude => Rgtb magnitude 5
  | None => false
  end.

(** [AudioVisualizer.get_audio_data]: [read] is what the stream returned,
    decoded as int16 samples, or [None] when the read raised; the [except]
    branch substitutes [CHUNK] zeros. *)
Definition get_audio_data (read : option (list Z)) : list Z :=
  match read with
  | Some data => data
  | None => repeat 0%Z (Z.to_nat CHUNK)
  end.

(** The events that clear [running]: the window's QUIT and the ESC key. *)
Definition is_quit (ev : Event) : bool :=
  match ev with
  | QUIT => true
  | KEYDOWN key => (key =? K_ESCAPE)%Z
  | OTHER => false
  end.

(** Number of particles of a list with a given life. *)
Definition life_count (L : Z) (ps : list Particle) : nat :=
  length (filter (fun p => (life p =? L)%Z) ps).

(** Shape of the particle list under a cooldown value [cd]: lives between 1
    and [49 + cd], two different lives at least 11 apart, at most 32
    particles of any one life. *)
Definition particles_ok (cd : Z) (ps : list Particle) : Prop :=
  Forall (fun p => (1 <= life p <= 49 + cd)%Z) ps
  /\ (forall p q : Particle, In p ps -> In q ps ->
        life p = life q \/ (11 <= Z.abs (life p - life q))%Z)
  /\ (forall L : Z, (life_count L ps <= 32)%nat).

(** What every pass of the main loop keeps true of the object. *)
Definition run_inv (self : AudioVisualizer) : Prop :=
  (0 <= beat_cooldown self <= 10)%Z
  /\ (1 <= mode self <= 5)%Z
  /\ 0 <= hue self < 1
  /\ (length (beat_history self) <= 20)%nat
  /\ (length (freq_smooth self) <= 3)%nat
  /\ (mode self <> 5%Z -> particles self = [])
  /\ particles_ok (beat_cooldown self) (particles self)
  /\ Forall (fun p => 0 <= phue p < 1) (particles self).

(** The object while nothing but silence has been heard: zero spectra and
    zero energies in the histories, no cooldown, no beat, no particle. *)
Definition silent_state (w h : Z) (self : AudioVisualizer) : Prop :=
  WIDTH self = w
  /\ HEIGHT self = h
  /\ (exists k : nat, (k <= 3)%nat /\ freq_smooth self = repeat (repeat 0 1024) k)
  /\ (exists j : nat, (j <= 20)%nat /\ beat_history self = repeat 0 j)
  /\ beat_threshold self = 13 / 10
  /\ beat_cooldown self = 0%Z
  /\ beat_detected self = false
  /\ particles self = [].

(** Lines 266-273: the circle drawn for a particle that survived its
    update: colour, centre, radius. *)
Definition particle_circle (p : Particle) : (Z * Z * Z) * (Z * Z) * Z :=
  let alpha := IZR (life p) / 60 in
  let color := rgb255 (hsv_to_rgb (phue p) (9 / 10) alpha) in
  let size := (py_int (3 * alpha) + 1)%Z in
  (color, (py_int (px p), py_int (py p)), size).

(** The circles of one call of the mode-5 builder, in drawing order. *)
Definition mode_5_circles (ps : list Particle) : list ((Z * Z * Z) * (Z * Z) * Z) :=
  map particle_circle (update_spec ps).

(** An RGB triple pygame accepts. *)
Definition valid_color (c : Z * Z * Z) : Prop :=
  let '(r, g, b) := c in
  (0 <= r <= 255 /\ 0 <= g <= 255 /\ 0 <= b <= 255)%Z.

(** * Properties *)

(** ** Lists, sums and means *)

Lemma np_sum_app (a b : list R) : np_sum (a ++ b) = np_sum a + np_sum b.
Proof.
  induction a as [|x a IH]; simpl.
  - lra.
  - rewrite IH. lra.
Qed.

Lemma np_sum_repeat (c : R) (k : nat) : np_sum (repeat c k) = c * INR k.
Proof.
  induction k as [|k IH].
  - simpl. lra.
  - rewrite S_INR. simpl. rewrite IH. lra.
Qed.

Lemma np_mean_repeat (c : R) (k : nat) : np_mean (repeat c (S k)) = Some c.
Proof.
  change (np_mean (repeat c (S k)))
    with (Some (np_sum (repeat c (S k)) / INR (length (repeat c (S k))))).
  rewrite np_sum_repeat, repeat_length.
  f_equal. field. apply not_0_INR. discriminate.
Qed.

Lemma repeat_snoc {A : Type} (x : A) (k : nat) :
  repeat x k ++ [x] = repeat x (S k).
Proof.
  induction k as [|k IH]; simpl; [reflexivity|].
  now rewrite IH.
Qed.

Lemma skipn_repeat {A : Type} (x : A) (n k : nat) :
  skipn n (repeat x k) = repeat x (k - n).
Proof.
  revert k; induction n as [|n IH]; intros [|k]; simpl; auto.
Qed.

Lemma deque_append_length {A : Type} (m : nat) (d : list A) (x : A) :
  length (deque_append m d x) = Nat.min (S (length d)) m.
Proof.
  unfold deque_append. rewrite length_skipn, length_app. simpl length. lia.
Qed.

Lemma deque_append_snoc {A : Type} (m : nat) (d : list A) (x : A) :
  (1 <= m)%nat ->
  deque_append m d x = skipn (S (length d) - m) d ++ [x].
Proof.
  intros Hm. unfold deque_append.
  rewrite length_app. simpl length.
  replace (length d + 1 - m)%nat with (S (length d) - m)%nat by lia.
  rewrite skipn_app.
  replace (S (length d) - m - length d)%nat with 0%nat by lia.
  reflexivity.
Qed.

Lemma deque_append_repeat {A : Type} (m k : nat) (x : A) :
  deque_append m (repeat x k) x = repeat x (Nat.min (S k) m).
Proof.
  unfold deque_append.
  rewrite repeat_snoc, skipn_repeat, repeat_length.
  f_equal. lia.
Qed.

Lemma Rgtb_true (a b : R) : a > b -> Rgtb a b = true.
Proof. intros H. unfold Rgtb. destruct (Rgt_dec a b); [reflexivity | contradiction]. Qed.

Lemma Rgtb_false (a b : R) : a <= b -> Rgtb a b = false.
Proof. intros H. unfold Rgtb. destruct (Rgt_dec a b); [lra | reflexivity]. Qed.

(** ** Beat detector *)

Lemma bass_range_eq : bass_range = 9%nat.
Proof. reflexivity. Qed.

Lemma bass_energy_singleton (x : R) : bass_energy [x] = x.
Proof. unfold bass_energy, py_slice. rewrite bass_range_eq. simpl. lra. Qed.

Lemma detect_beat_history (self : AudioVisualizer) (s : list R) :
  beat_history (snd (detect_beat self s))
  = deque_append 20 (beat_history self) (bass_energy s).
Proof.
  unfold detect_beat. cbv zeta.
  destruct (0 <? _)%Z; [reflexivity|].
  destruct (gt_opt _ _); reflexivity.
Qed.

Lemma detect_beat_threshold (self : AudioVisualizer) (s : list R) :
  beat_threshold (snd (detect_beat self s)) = beat_threshold self.
Proof.
  unfold detect_beat. cbv zeta.
  destruct (0 <? _)%Z; [reflexivity|].
  destruct (gt_opt _ _); reflexivity.
Qed.

(** While the counter is positive the call decrements it and answers false,
    whatever the spectrum. *)
Lemma detect_beat_cooling (self : AudioVisualizer) (s : list R) :
  (0 < beat_cooldown self)%Z ->
  fst (detect_beat self s) = false
  /\ beat_cooldown (snd (detect_beat self s)) = (beat_cooldown self - 1)%Z.
Proof.
  intros H. unfold detect_beat. cbv zeta.
  change (beat_cooldown (set_beat_history _ self)) with (beat_cooldown self).
  apply Z.ltb_lt in H. rewrite H. split; reflexivity.
Qed.

(** With the counter at zero the answer is the threshold test, and the
    counter becomes 10 exactly when the answer is true. *)
Lemma detect_beat_idle (self : AudioVisualizer) (s : list R) :
  beat_cooldown self = 0%Z ->
  fst (detect_beat self s)
  = gt_opt (bass_energy s)
      (option_map (fun a => a * beat_threshold self)
         (np_mean (deque_append 20 (beat_history self) (bass_energy s))))
  /\ beat_cooldown (snd (detect_beat self s))
     = if fst (detect_beat self s) then 10%Z else 0%Z.
Proof.
  intros H. unfold detect_beat. cbv zeta.
  change (beat_cooldown (set_beat_history _ self)) with (beat_cooldown self).
  change (beat_threshold (set_beat_history _ self)) with (beat_threshold self).
  change (beat_history (set_beat_history ?h self)) with h.
  rewrite H. change (0 <? 0)%Z with false. cbv iota.
  destruct (gt_opt _ _); split; simpl; auto.
Qed.

Lemma detect_beats_app (self : AudioVisualizer) (a b : list (list R)) :
  detect_beats self (a ++ b)
  = (fst (detect_beats self a) ++ fst (detect_beats (snd (detect_beats self a)) b),
     snd (detect_beats (snd (detect_beats self a)) b)).
Proof.
  revert self; induction a as [|s a IH]; intros self.
  - simpl. now destruct (detect_beats self b).
  - rewrite <- app_comm_cons. cbn [detect_beats].
    destruct (detect_beat self s) as [f self1]. rewrite IH.
    destruct (detect_beats self1 a) as [fa sa]. reflexivity.
Qed.

Lemma detect_beats_cons (self : AudioVisualizer) (s : list R) (rest : list (list R)) :
  detect_beats self (s :: rest)
  = (fst (detect_beat self s) :: fst (detect_beats (snd (detect_beat self s)) rest),
     snd (detect_beats (snd (detect_beat self s)) rest)).
Proof.
  cbn [detect_beats]. destruct (detect_beat self s) as [f self1].
  cbn [fst snd]. now destruct (detect_beats self1 rest).
Qed.

(** A constant, non-negative bass energy never fires the detector. *)
Lemma detect_beats_constant (c : R) (ticks : list (list R)) :
  0 <= c ->
  Forall (fun s => bass_energy s = c) ticks ->
  forall (self : AudioVisualizer) (k : nat),
    (k <= 20)%nat ->
    beat_cooldown self = 0%Z ->
    beat_threshold self = 13 / 10 ->
    beat_history self = repeat c k ->
    fst (detect_beats self ticks) = repeat false (length ticks)
    /\ beat_cooldown (snd (detect_beats self ticks)) = 0%Z
    /\ beat_threshold (snd (detect_beats self ticks)) = 13 / 10
    /\ beat_history (snd (detect_beats self ticks))
       = repeat c (Nat.min (k + length ticks) 20).
Proof.
  intros Hc Hall.
  induction Hall as [|s ticks Hs _ IH]; intros self k Hk Hcd Hth Hh.
  - simpl. repeat split; auto.
    rewrite Hh. f_equal. lia.
  - rewrite detect_beats_cons.
    destruct (detect_beat_idle self s Hcd) as [Hflag Hcd'].
    assert (Hf : fst (detect_beat self s) = false).
    { rewrite Hflag, Hs, Hh, Hth, deque_append_repeat.
      destruct (Nat.min (S k) 20) as [|m] eqn:Hm; [lia|].
      rewrite np_mean_repeat. simpl. apply Rgtb_false. lra. }
    rewrite Hf in Hcd'.
    destruct (IH (snd (detect_beat self s)) (Nat.min (S k) 20)) as (H1 & H2 & H3 & H4).
    + lia.
    + exact Hcd'.
    + now rewrite detect_beat_threshold.
    + now rewrite detect_beat_history, Hs, Hh, deque_append_repeat.
    + simpl fst. simpl snd. rewrite Hf, H1, H2, H3, H4.
      repeat split. f_equal. simpl length. lia.
Qed.

(** A positive counter silences as many ticks as it counts. *)
Lemma detect_beats_cooling (ticks : list (list R)) :
  forall self : AudioVisualizer,
    (Z.of_nat (length ticks) <= beat_cooldown self)%Z ->
    length (beat_history self) = 20%nat ->
    fst (detect_beats self ticks) = repeat false (length ticks)
    /\ beat_cooldown (snd (detect_beats self ticks))
       = (beat_cooldown self - Z.of_nat (length ticks))%Z
    /\ beat_threshold (snd (detect_beats self ticks)) = beat_threshold self
    /\ length (beat_history (snd (detect_beats self ticks))) = 20%nat.
Proof.
  induction ticks as [|s ticks IH]; intros self Hlen Hh.
  - simpl. repeat split; auto. lia.
  - rewrite detect_beats_cons. cbn [fst snd].
    cbn [length] in Hlen.
    destruct (detect_beat_cooling self s) as [Hf Hcd]; [lia|].
    destruct (IH (snd (detect_beat self s))) as (H1 & H2 & H3 & H4).
    + rewrite Hcd. lia.
    + rewrite detect_beat_history, deque_append_length, Hh. reflexivity.
    + rewrite Hf, H1, H2, H3, H4, Hcd, detect_beat_threshold.
      repeat split. cbn [length]. lia.
Qed.

(** Once the history is full and the counter is back at zero, a spike above
    the absolute sum of the nineteen newest entries fires the detector. *)
Lemma detect_beat_spike (self : AudioVisualizer) (x : R) :
  beat_cooldown self = 0%Z ->
  beat_threshold self = 13 / 10 ->
  length (beat_history self) = 20%nat ->
  x > Rabs (np_sum (skipn 1 (beat_history self))) ->
  fst (detect_beat self [x]) = true.
Proof.
  intros Hcd Hth Hlen Hx.
  destruct (detect_beat_idle self [x] Hcd) as [Hflag _].
  rewrite Hflag, bass_energy_singleton, Hth.
  rewrite deque_append_snoc by lia. rewrite Hlen.
  change (21 - 20)%nat with 1%nat.
  set (r := skipn 1 (beat_history self)) in *.
  assert (Hr : length r = 19%nat).
  { unfold r. rewrite length_skipn. lia. }
  assert (Hm : np_mean (r ++ [x]) = Some ((np_sum r + x) / 20)).
  { destruct (r ++ [x]) as [|y t] eqn:E.
    - destruct r; discriminate.
    - rewrite <- E. unfold np_mean. rewrite E, <- E.
      rewrite np_sum_app, length_app, Hr. simpl. f_equal. lra. }
  rewrite Hm. simpl. apply Rgtb_true.
  pose proof (Rle_abs (np_sum r)). pose proof (Rabs_pos (np_sum r)). lra.
Qed.

(** The silent run, the spike and what follows it, for a tail of at most
    ten ticks. *)
Lemma detect_beats_spike_run (w h : Z) (quiet : list (list R)) (spike : list R)
  (after : list (list R)) :
  length quiet = 20%nat ->
  Forall (fun s => bass_energy s = 100) quiet ->
  bass_energy spike = 200 ->
  (length after <= 10)%nat ->
  fst (detect_beats (init w h) (quiet ++ spike :: after))
  = repeat false 20 ++ true :: repeat false (length after)
  /\ beat_cooldown (snd (detect_beats (init w h) (quiet ++ spike :: after)))
     = (10 - Z.of_nat (length after))%Z
  /\ beat_threshold (snd (detect_beats (init w h) (quiet ++ spike :: after)))
     = 13 / 10
  /\ length (beat_history (snd (detect_beats (init w h) (quiet ++ spike :: after))))
     = 20%nat.
Proof.
  intros Hq Hall Hs Ha.
  rewrite detect_beats_app. cbn [fst snd].
  destruct (detect_beats_constant 100 quiet ltac:(lra) Hall (init w h) 0)
    as (Q1 & Q2 & Q3 & Q4); try reflexivity; try lia.
  rewrite Hq in Q1, Q4. cbn [Nat.add Nat.min] in Q4.
  set (s20 := snd (detect_beats (init w h) quiet)) in *.
  rewrite detect_beats_cons. cbn [fst snd].
  destruct (detect_beat_idle s20 spike Q2) as [Hflag Hcd].
  assert (Hf : fst (detect_beat s20 spike) = true).
  { rewrite Hflag, Hs, Q3, Q4. rewrite deque_append_snoc by lia.
    rewrite repeat_length. change (21 - 20)%nat with 1%nat.
    simpl. apply Rgtb_true. lra. }
  rewrite Hf in Hcd.
  destruct (detect_beats_cooling after (snd (detect_beat s20 spike)))
    as (A1 & A2 & A3 & A4).
  - rewrite Hcd. lia.
  - rewrite detect_beat_history, deque_append_length, Q4, repeat_length.
    reflexivity.
  - rewrite Q1, Hf, A1, A2, A3, A4, Hcd, detect_beat_threshold, Q3.
    repeat split.
Qed.

Lemma Forall_bass_energy_repeat (x : R) (k : nat) :
  Forall (fun s => bass_energy s = x) (repeat [x] k).
Proof.
  induction k as [|k IH]; simpl; constructor; auto using bass_energy_singleton.
Qed.

(** C1, as amended: from the initial state, twenty ticks of bass energy 100,
    a spike of 200 on tick 21 and any ten spectra on ticks 22 to 31 make
    [detect_beat] answer false on ticks 1 to 20, true on tick 21 and false
    on ticks 22 to 31; after tick 31 the counter is back at zero and a large
    enough spike on tick 32 is answered true. *)
Theorem detect_beat_spike_scenario (w h : Z) (quiet : list (list R))
  (spike : list R) (after : list (list R)) :
  length quiet = 20%nat ->
  Forall (fun s => bass_energy s = 100) quiet ->
  bass_energy spike = 200 ->
  length after = 10%nat ->
  fst (detect_beats (init w h) (quiet ++ spike :: after))
  = repeat false 20 ++ true :: repeat false 10
  /\ beat_cooldown (snd (detect_beats (init w h) (quiet ++ spike :: after))) = 0%Z
  /\ exists s32 : list R,
       fst (detect_beat (snd (detect_beats (init w h) (quiet ++ spike :: after))) s32)
       = true.
Proof.
  intros Hq Hall Hs Ha.
  destruct (detect_beats_spike_run w h quiet spike after Hq Hall Hs)
    as (F & C & T & L); [lia|].
  rewrite Ha in F, C.
  split; [exact F|]. split; [exact C|].
  set (s31 := snd (detect_beats (init w h) (quiet ++ spike :: after))) in *.
  exists [Rabs (np_sum (skipn 1 (beat_history s31))) + 1].
  apply detect_beat_spike; auto. lra.
Qed.

Lemma detect_beat_spike_scenario_witness :
  fst (detect_beats (init 1600 900)
         (repeat [100] 20 ++ [200] :: repeat [100] 10))
  = repeat false 20 ++ true :: repeat false 10
  /\ beat_cooldown (snd (detect_beats (init 1600 900)
                           (repeat [100] 20 ++ [200] :: repeat [100] 10))) = 0%Z
  /\ exists s32 : list R,
       fst (detect_beat (snd (detect_beats (init 1600 900)
                                (repeat [100] 20 ++ [200] :: repeat [100] 10))) s32)
       = true.
Proof.
  apply (detect_beat_spike_scenario 1600 900 (repeat [100] 20) [200]
           (repeat [100] 10)).
  - reflexivity.
  - apply Forall_bass_energy_repeat.
  - apply bass_energy_singleton.
  - reflexivity.
Defined.

(** C1, as stated, fails: with energy 100 on ticks 1 to 20, 200 on tick 21
    and 100 on ticks 22 to 30, the counter still holds 1 when tick 31
    starts, so no spectrum at all is answered true on tick 31. *)
Lemma detect_beat_tick_31_silent :
  beat_cooldown (snd (detect_beats (init 1600 900)
                        (repeat [100] 20 ++ [200] :: repeat [100] 9))) = 1%Z
  /\ ~ (exists s31 : list R,
          fst (detect_beat (snd (detect_beats (init 1600 900)
                                   (repeat [100] 20 ++ [200] :: repeat [100] 9)))
                 s31) = true).
Proof.
  destruct (detect_beats_spike_run 1600 900 (repeat [100] 20) [200]
              (repeat [100] 9)) as (_ & C & _ & _).
  - reflexivity.
  - apply Forall_bass_energy_repeat.
  - apply bass_energy_singleton.
  - simpl. lia.
  - rewrite repeat_length in C. change (10 - Z.of_nat 9)%Z with 1%Z in C.
    split; [exact C|].
    intros [s31 H].
    set (s30 := snd (detect_beats (init 1600 900)
                       (repeat [100] 20 ++ [200] :: repeat [100] 9))) in *.
    assert (Hpos : (0 < beat_cooldown s30)%Z) by (rewrite C; lia).
    destruct (detect_beat_cooling s30 s31 Hpos) as [Hf _].
    congruence.
Qed.

(** One call moves the counter in one of three ways. *)
Lemma detect_beat_cooldown_step (self : AudioVisualizer) (s : list R) :
  (0 <= beat_cooldown self)%Z ->
  (beat_cooldown self = 0 /\ fst (detect_beat self s) = false
   /\ beat_cooldown (snd (detect_beat self s)) = 0)%Z
  \/ (beat_cooldown self = 0 /\ fst (detect_beat self s) = true
      /\ beat_cooldown (snd (detect_beat self s)) = 10)%Z
  \/ (0 < beat_cooldown self /\ fst (detect_beat self s) = false
      /\ beat_cooldown (snd (detect_beat self s)) = beat_cooldown self - 1)%Z.
Proof.
  intros H0.
  destruct (Z.eq_dec (beat_cooldown self) 0) as [E|N].
  - destruct (detect_beat_idle self s E) as [_ Hcd].
    destruct (fst (detect_beat self s)); [right; left | left]; auto.
  - right; right.
    destruct (detect_beat_cooling self s) as [Hf Hcd]; [lia|].
    repeat split; auto. lia.
Qed.

Lemma detect_beats_cooldown_range (ticks : list (list R)) :
  forall self : AudioVisualizer,
    (0 <= beat_cooldown self <= 10)%Z ->
    (0 <= beat_cooldown (snd (detect_beats self ticks)) <= 10)%Z.
Proof.
  induction ticks as [|s ticks IH]; intros self H.
  - exact H.
  - rewrite detect_beats_cons. cbn [snd]. apply IH.
    destruct (detect_beat_cooldown_step self s) as [(A & _ & B)|[(A & _ & B)|(A & _ & B)]];
      lia.
Qed.

(** C9: from the initial state, after any finite sequence of [detect_beat]
    calls on arbitrary spectra the cooldown counter is not negative (it lies
    between 0 and 10), and the next call either leaves it at 0, sets it from
    0 to 10, or takes 1 off a strictly positive value. *)
Theorem cooldown_never_negative (w h : Z) (ticks : list (list R)) (s : list R) :
  let self := snd (detect_beats (init w h) ticks) in
  (0 <= beat_cooldown self <= 10)%Z
  /\ ((beat_cooldown self = 0
       /\ beat_cooldown (snd (detect_beat self s)) = 0)%Z
      \/ (beat_cooldown self = 0
          /\ beat_cooldown (snd (detect_beat self s)) = 10)%Z
      \/ (0 < beat_cooldown self
          /\ beat_cooldown (snd (detect_beat self s)) = beat_cooldown self - 1)%Z)
  /\ (0 <= beat_cooldown (snd (detect_beat self s)))%Z.
Proof.
  intros self.
  assert (R0 : (0 <= beat_cooldown self <= 10)%Z).
  { apply detect_beats_cooldown_range. simpl. lia. }
  split; [exact R0|].
  destruct (detect_beat_cooldown_step self s) as [(A & _ & B)|[(A & _ & B)|(A & _ & B)]];
    try lia; (split; [|lia]); auto.
Qed.

(** ** Band aggregation *)

Lemma py_slice_length {A : Type} (l : list A) (a w : nat) :
  (a + w <= length l)%nat -> length (py_slice l a (a + w)) = w.
Proof.
  intros H. unfold py_slice. rewrite length_firstn, length_skipn. lia.
Qed.

(** A slice inside the bounds lists the elements at its indices. *)
Lemma py_slice_nth (l : list R) (a w : nat) :
  (a + w <= length l)%nat ->
  py_slice l a (a + w) = map (fun j => nth j l 0) (seq a w).
Proof.
  intros H.
  apply nth_ext with (d := 0) (d' := 0).
  - rewrite py_slice_length by exact H. now rewrite length_map, length_seq.
  - intros k Hk. rewrite py_slice_length in Hk by exact H.
    unfold py_slice.
    replace (a + w - a)%nat with w by lia.
    rewrite nth_firstn.
    assert (E : (k <? w)%nat = true) by (apply Nat.ltb_lt; exact Hk).
    rewrite E, nth_skipn.
    rewrite (nth_indep (map (fun j => nth j l 0) (seq a w)) 0 (nth 0%nat l 0))
      by (now rewrite length_map, length_seq).
    rewrite (map_nth (fun j => nth j l 0)), seq_nth by exact Hk. reflexivity.
Qed.

Lemma np_mean_nonempty (l : list R) :
  (1 <= length l)%nat -> np_mean l = Some (np_sum l / INR (length l)).
Proof.
  destruct l; simpl; [lia | reflexivity].
Qed.

(** The band the code computes is the band of the specification. *)
Lemma band_is_slice_mean (series : list R) (w i : nat) :
  (1 <= w)%nat ->
  (i * w + w <= length series)%nat ->
  np_mean (py_slice series (i * w) (i * w + w)) = Some (slice_mean_spec series w i).
Proof.
  intros Hw Hb.
  rewrite np_mean_nonempty by (rewrite py_slice_length; lia).
  rewrite py_slice_length by exact Hb.
  rewrite py_slice_nth by exact Hb.
  unfold slice_mean_spec.
  replace ((i + 1) * w - i * w)%nat with w by lia.
  reflexivity.
Qed.

Lemma get_frequency_bands_length (series : list R) (n : nat) (bands : list (option R)) :
  get_frequency_bands series n = Some bands -> length bands = n.
Proof.
  unfold get_frequency_bands. destruct (Nat.eqb n 0); [discriminate|].
  intros [= <-]. now rewrite length_map, length_seq.
Qed.

Lemma band_bounds (len n i : nat) :
  (1 <= n <= len)%nat -> (i < n)%nat ->
  (1 <= len / n /\ i * (len / n) + len / n <= n * (len / n)
   /\ n * (len / n) <= len)%nat.
Proof.
  intros Hn Hi.
  assert (H1 : (1 <= len / n)%nat).
  { apply Nat.div_le_lower_bound; lia. }
  assert (H2 : (n * (len / n) <= len)%nat).
  { apply Nat.Div0.mul_div_le. }
  repeat split; auto. nia.
Qed.

(** C5: for [1 <= bandCount <= len(series)], [get_frequency_bands] returns
    exactly [bandCount] values; value [i] is the arithmetic mean of the
    slice [i*w, (i+1)*w) of the series with [w = len(series) // bandCount];
    the slices lie within the first [bandCount*w] elements, and the result
    is the same for any other series of that length that agrees on them, so
    the trailing elements contribute to no band.  The result is a function
    of the two arguments alone. *)
Theorem get_frequency_bands_slice_means (series : list R) (bandCount : nat) :
  (1 <= bandCount <= length series)%nat ->
  let w := (length series / bandCount)%nat in
  exists bands : list (option R),
    get_frequency_bands series bandCount = Some bands
    /\ length bands = bandCount
    /\ (1 <= w)%nat
    /\ (bandCount * w <= length series)%nat
    /\ (forall i : nat, (i < bandCount)%nat ->
          ((i + 1) * w <= bandCount * w)%nat
          /\ nth_error bands i = Some (Some (slice_mean_spec series w i)))
    /\ (forall series' : list R,
          length series' = length series ->
          firstn (bandCount * w) series' = firstn (bandCount * w) series ->
          get_frequency_bands series' bandCount = Some bands).
Proof.
  intros Hn w.
  destruct (band_bounds (length series) bandCount 0 Hn ltac:(lia)) as (Hw & _ & Hle).
  fold w in Hw, Hle.
  assert (Hnz : Nat.eqb bandCount 0 = false) by (apply Nat.eqb_neq; lia).
  eexists. split.
  { unfold get_frequency_bands. rewrite Hnz. reflexivity. }
  fold w.
  split; [now rewrite length_map, length_seq|].
  split; [exact Hw|]. split; [exact Hle|]. split.
  - intros i Hi.
    destruct (band_bounds (length series) bandCount i Hn Hi) as (_ & Hb & _).
    fold w in Hb. split; [lia|].
    rewrite nth_error_map, nth_error_seq.
    assert (E : (i <? bandCount)%nat = true) by (apply Nat.ltb_lt; exact Hi).
    rewrite E. cbn [option_map Nat.add]. do 2 f_equal.
    assert (Some (np_mean (py_slice series (i * w) (i * w + w)))
            = Some (Some (slice_mean_spec series w i))) as X.
    { f_equal. apply band_is_slice_mean; lia. }
    now injection X.
  - intros series' Hlen Hfirst.
    unfold get_frequency_bands. rewrite Hnz, Hlen. fold w.
    f_equal. apply map_ext_in. intros i Hi. apply in_seq in Hi.
    destruct (band_bounds (length series) bandCount i Hn ltac:(lia)) as (_ & Hb & _).
    fold w in Hb.
    rewrite !py_slice_nth by lia.
    f_equal. apply map_ext_in. intros j Hj. apply in_seq in Hj.
    assert (Hjm : (j < bandCount * w)%nat) by lia.
    assert (G : forall l : list R, nth j l 0 = nth j (firstn (bandCount * w) l) 0).
    { intros l. rewrite nth_firstn.
      assert (E : (j <? bandCount * w)%nat = true) by (apply Nat.ltb_lt; exact Hjm).
      now rewrite E. }
    rewrite (G series'), (G series), Hfirst. reflexivity.
Qed.

Lemma get_frequency_bands_slice_means_witness :
  (1 <= 2 <= length [1; 2; 3; 4; 5])%nat
  /\ exists bands : list (option R),
       get_frequency_bands [1; 2; 3; 4; 5] 2 = Some bands
       /\ length bands = 2%nat
       /\ nth_error bands 1 = Some (Some (slice_mean_spec [1; 2; 3; 4; 5] 2 1)).
Proof.
  assert (H : (1 <= 2 <= length [1; 2; 3; 4; 5])%nat) by (simpl; lia).
  split; [exact H|].
  destruct (get_frequency_bands_slice_means [1; 2; 3; 4; 5] 2 H)
    as (bands & H1 & H2 & _ & _ & H3 & _).
  exists bands. split; [exact H1|]. split; [exact H2|].
  apply (H3 1%nat). lia.
Defined.

(** ** Mode controller and pause *)

Lemma handle_event_keeps_empty (rs : bool * AudioVisualizer) (ev : Event) :
  particles (snd rs) = [] -> particles (snd (handle_event rs ev)) = [].
Proof.
  destruct rs as [running self]. intros H.
  destruct ev as [|key|]; simpl; auto.
  destruct (key =? K_ESCAPE)%Z; [exact H|].
  destruct (key =? K_SPACE)%Z; [exact H|].
  destruct ((K_1 <=? key) && (key <=? K_5))%Z; [reflexivity | exact H].
Qed.

Lemma handle_events_keep_empty (events : list Event) :
  forall rs : bool * AudioVisualizer,
    particles (snd rs) = [] -> particles (snd (handle_events rs events)) = [].
Proof.
  induction events as [|ev events IH]; intros rs H; simpl.
  - exact H.
  - apply IH. now apply handle_event_keeps_empty.
Qed.

Lemma handle_event_select (running : bool) (self : AudioVisualizer) (m : Z) :
  (1 <= m <= 5)%Z ->
  handle_event (running, self) (KEYDOWN (K_0 + m))
  = (running, set_particles [] (set_mode m self)).
Proof.
  intros Hm. unfold handle_event, K_ESCAPE, K_SPACE, K_1, K_5, K_0.
  assert (E1 : (48 + m =? 27)%Z = false) by (apply Z.eqb_neq; lia).
  assert (E2 : (48 + m =? 32)%Z = false) by (apply Z.eqb_neq; lia).
  assert (E3 : (49 <=? 48 + m)%Z = true) by (apply Z.leb_le; lia).
  assert (E4 : (48 + m <=? 53)%Z = true) by (apply Z.leb_le; lia).
  rewrite E1, E2, E3, E4. cbn [andb].
  replace (48 + m - 48)%Z with m by lia. reflexivity.
Qed.

(** C3: a select-mode event for any of the five modes, the active one
    included, leaves the particle list empty whatever it held before, sets
    the mode, and the events that follow it in the same batch do not refill
    the list. *)
Theorem select_mode_clears_particles (running : bool) (self : AudioVisualizer)
  (m : Z) (later : list Event) :
  (1 <= m <= 5)%Z ->
  particles (snd (handle_event (running, self) (KEYDOWN (K_0 + m)))) = []
  /\ mode (snd (handle_event (running, self) (KEYDOWN (K_0 + m)))) = m
  /\ fst (handle_event (running, self) (KEYDOWN (K_0 + m))) = running
  /\ particles (snd (handle_events (running, self) (KEYDOWN (K_0 + m) :: later))) = [].
Proof.
  intros Hm. rewrite handle_event_select by exact Hm.
  repeat split.
  cbn [handle_events fold_left]. rewrite handle_event_select by exact Hm.
  now apply handle_events_keep_empty.
Qed.

Lemma select_mode_clears_particles_witness :
  let p := mkParticle 800 450 1 0 60 0 in
  let self := set_particles [p; p] (init 1600 900) in
  mode self = 1%Z
  /\ particles self <> []
  /\ particles (snd (handle_event (true, self) (KEYDOWN (K_0 + 1)))) = []
  /\ mode (snd (handle_event (true, self) (KEYDOWN (K_0 + 1)))) = 1%Z.
Proof.
  intros p self.
  split; [reflexivity|]. split; [discriminate|].
  destruct (select_mode_clears_particles true self 1 []) as (H1 & H2 & _).
  - lia.
  - split; [exact H1 | exact H2].
Defined.

(** The events handled by line 281 never touch the analysis state. *)
Lemma handle_event_analysis_state (rs : bool * AudioVisualizer) (ev : Event) :
  freq_smooth (snd (handle_event rs ev)) = freq_smooth (snd rs)
  /\ beat_history (snd (handle_event rs ev)) = beat_history (snd rs)
  /\ beat_cooldown (snd (handle_event rs ev)) = beat_cooldown (snd rs)
  /\ beat_detected (snd (handle_event rs ev)) = beat_detected (snd rs)
  /\ hue (snd (handle_event rs ev)) = hue (snd rs).
Proof.
  destruct rs as [running self].
  destruct ev as [|key|]; simpl; auto.
  destruct (key =? K_ESCAPE)%Z; [auto|].
  destruct (key =? K_SPACE)%Z; [simpl; auto|].
  destruct ((K_1 <=? key) && (key <=? K_5))%Z; simpl; auto.
Qed.

Lemma handle_events_analysis_state (events : list Event) :
  forall rs : bool * AudioVisualizer,
    freq_smooth (snd (handle_events rs events)) = freq_smooth (snd rs)
    /\ beat_history (snd (handle_events rs events)) = beat_history (snd rs)
    /\ beat_cooldown (snd (handle_events rs events)) = beat_cooldown (snd rs)
    /\ beat_detected (snd (handle_events rs events)) = beat_detected (snd rs)
    /\ hue (snd (handle_events rs events)) = hue (snd rs).
Proof.
  induction events as [|ev events IH]; intros rs; simpl.
  - auto.
  - destruct (IH (handle_event rs ev)) as (A & B & C & D & E).
    destruct (handle_event_analysis_state rs ev) as (A' & B' & C' & D' & E').
    repeat split; congruence.
Qed.

Lemma handle_event_mode_particles (rs : bool * AudioVisualizer) (ev : Event) :
  not_select ev ->
  mode (snd (handle_event rs ev)) = mode (snd rs)
  /\ particles (snd (handle_event rs ev)) = particles (snd rs).
Proof.
  destruct rs as [running self].
  destruct ev as [|key|]; simpl; auto.
  intros H. rewrite H.
  destruct (key =? K_ESCAPE)%Z; [auto|].
  destruct (key =? K_SPACE)%Z; simpl; auto.
Qed.

Lemma handle_events_mode_particles (events : list Event) :
  Forall not_select events ->
  forall rs : bool * AudioVisualizer,
    mode (snd (handle_events rs events)) = mode (snd rs)
    /\ particles (snd (handle_events rs events)) = particles (snd rs).
Proof.
  induction 1 as [|ev events Hev _ IH]; intros rs; simpl.
  - auto.
  - destruct (IH (handle_event rs ev)) as [A B].
    destruct (handle_event_mode_particles rs ev Hev) as [A' B'].
    split; congruence.
Qed.

Lemma tick_paused (self : AudioVisualizer) (audio_data : list Z) :
  paused self = true -> tick self audio_data = Some self.
Proof.
  intros H. unfold tick. rewrite H. reflexivity.
Qed.

Lemma toggle_pause (running : bool) (self : AudioVisualizer) :
  handle_event (running, self) (KEYDOWN K_SPACE)
  = (running, set_paused (negb (paused self)) self).
Proof. reflexivity. Qed.

Lemma run_loop_paused (frames : list (list Z)) :
  forall self : AudioVisualizer,
    paused self = true ->
    run_loop self (map (fun f => ([], f)) frames) = Some self.
Proof.
  induction frames as [|f frames IH]; intros self H.
  - reflexivity.
  - cbn [map run_loop]. unfold run_iteration. cbn [fst snd handle_events fold_left].
    rewrite tick_paused by exact H. cbn [option_map]. now apply IH.
Qed.

(** C2: a tick that runs with the paused flag set returns the object as it
    was: smoothing history, beat history, cooldown, beat flag, hue, particle
    list and mode are untouched.  For a whole pass of the loop that reaches
    its tick paused, the five analysis fields are those from before the
    pass, and so are mode and particle list unless a select-mode key was
    among the events of the pass.  A pause, any number of paused passes and
    a resume hand the object back exactly as it was before the pause. *)
Theorem paused_tick_preserves_state :
  (forall (self : AudioVisualizer) (audio_data : list Z),
      paused self = true ->
      tick self audio_data = Some self)
  /\ (forall (running : bool) (self : AudioVisualizer) (events : list Event)
        (audio_data : list Z),
        paused (snd (handle_events (running, self) events)) = true ->
        exists running' self',
          run_iteration (running, self) (events, audio_data) = Some (running', self')
          /\ freq_smooth self' = freq_smooth self
          /\ beat_history self' = beat_history self
          /\ beat_cooldown self' = beat_cooldown self
          /\ beat_detected self' = beat_detected self
          /\ hue self' = hue self
          /\ (Forall not_select events ->
              mode self' = mode self /\ particles self' = particles self))
  /\ (forall (self : AudioVisualizer) (first : list Z) (frames : list (list Z)),
        paused self = false ->
        exists held : AudioVisualizer,
          run_loop self (([KEYDOWN K_SPACE], first) :: map (fun f => ([], f)) frames)
          = Some held
          /\ paused held = true
          /\ handle_events (true, held) [KEYDOWN K_SPACE] = (true, self)).
Proof.
  split; [exact tick_paused|]. split.
  - intros running self events audio_data Hp.
    unfold run_iteration. cbn [fst snd].
    destruct (handle_events (running, self) events) as [running' self'] eqn:E.
    cbn [snd] in Hp. rewrite tick_paused by exact Hp. cbn [option_map].
    exists running', self'. split; [reflexivity|].
    pose proof (handle_events_analysis_state events (running, self)) as H.
    rewrite E in H. cbn [snd] in H. destruct H as (A & B & C & D & F).
    do 5 (split; [assumption|]).
    intros Hns.
    pose proof (handle_events_mode_particles events Hns (running, self)) as G.
    rewrite E in G. exact G.
  - intros self first frames Hp.
    exists (set_paused true self).
    split; [|split].
    + cbn [run_loop]. unfold run_iteration.
      cbn [fst snd handle_events fold_left]. rewrite toggle_pause, Hp.
      cbn [negb]. rewrite tick_paused by reflexivity. cbn [option_map].
      now apply run_loop_paused.
    + reflexivity.
    + cbn [handle_events fold_left]. rewrite toggle_pause.
      destruct self; simpl in *. subst. reflexivity.
Qed.

Lemma paused_tick_preserves_state_witness :
  let self := set_paused true (set_mode 5 (init 1600 900)) in
  paused self = true /\ tick self [1%Z; 2%Z; 3%Z] = Some self.
Proof.
  intros self. split; [reflexivity|].
  apply (proj1 paused_tick_preserves_state self [1%Z; 2%Z; 3%Z]).
  reflexivity.
Defined.

(** ** Particle system *)

Lemma list_remove_at (kept rest : list Particle) (p : Particle) :
  Forall (fun q => q <> p) kept ->
  list_remove p (kept ++ p :: rest) = Some (kept ++ rest).
Proof.
  induction 1 as [|q kept Hq _ IH]; simpl.
  - destruct (particle_eq_dec p p); [reflexivity | contradiction].
  - destruct (particle_eq_dec q p); [contradiction|].
    rewrite IH. reflexivity.
Qed.

Lemma set_nth_at (kept rest : list Particle) (p p' : Particle) :
  set_nth (length kept) p' (kept ++ p :: rest) = kept ++ p' :: rest.
Proof.
  unfold set_nth.
  rewrite firstn_app, firstn_all, Nat.sub_diag. cbn [firstn]. rewrite app_nil_r.
  f_equal. f_equal.
  rewrite skipn_app, skipn_all2 by lia.
  replace (S (length kept) - length kept)%nat with 1%nat by lia.
  reflexivity.
Qed.

(** The loop over the copy: with the survivors so far in front of the
    cursor, [remove] finds the visited object itself, and the loop ends with
    the survivors followed by the update of what was left to visit. *)
Lemma update_loop_spec (rest : list Particle) :
  forall kept : list Particle,
    Forall (fun q => (0 < life q)%Z) kept ->
    update_loop (length rest) (length kept) (kept ++ rest)
    = Some (kept ++ update_spec rest).
Proof.
  induction rest as [|p rest IH]; intros kept Hk.
  - reflexivity.
  - cbn [length update_loop].
    rewrite nth_error_app2, Nat.sub_diag by lia. cbn [nth_error].
    rewrite set_nth_at.
    unfold update_spec. cbn [map filter]. fold (update_spec rest).
    destruct (life (particle_step p) <=? 0)%Z eqn:E.
    + assert (E' : (0 <? life (particle_step p))%Z = false).
      { apply Z.ltb_ge. apply Z.leb_le in E. exact E. }
      rewrite E'. rewrite list_remove_at.
      * apply IH. exact Hk.
      * eapply Forall_impl; [|exact Hk].
        intros q Hq Heq. subst q. apply Z.leb_le in E. lia.
    + assert (E' : (0 <? life (particle_step p))%Z = true).
      { apply Z.ltb_lt. apply Z.leb_gt in E. exact E. }
      rewrite E'.
      replace (kept ++ particle_step p :: rest)
        with ((kept ++ [particle_step p]) ++ rest)
        by (now rewrite <- app_assoc).
      replace (S (length kept)) with (length (kept ++ [particle_step p]))
        by (rewrite length_app; simpl; lia).
      rewrite IH.
      * now rewrite <- app_assoc.
      * apply Forall_app. split; [exact Hk|].
        constructor; [|constructor]. apply Z.leb_gt in E. exact E.
Qed.

(** The code's update never raises and computes the update of the
    specification. *)
Lemma update_particles_spec (ps : list Particle) :
  update_particles ps = Some (update_spec ps).
Proof.
  unfold update_particles.
  exact (update_loop_spec ps [] (Forall_nil _)).
Qed.

Lemma update_spec_app (a b : list Particle) :
  update_spec (a ++ b) = update_spec a ++ update_spec b.
Proof.
  unfold update_spec. now rewrite map_app, filter_app.
Qed.

Lemma update_spec_length (ps : list Particle) :
  (length (update_spec ps) <= length ps)%nat.
Proof.
  unfold update_spec.
  etransitivity; [apply filter_length_le|]. now rewrite length_map.
Qed.

Lemma update_n_spec (k : nat) :
  forall ps : list Particle, update_n k ps = Some (Nat.iter k update_spec ps).
Proof.
  induction k as [|k IH]; intros ps.
  - reflexivity.
  - cbn [update_n]. rewrite update_particles_spec, IH.
    now rewrite <- Nat.iter_succ_r.
Qed.

Lemma iter_update_spec_app (k : nat) :
  forall a b : list Particle,
    Nat.iter k update_spec (a ++ b)
    = Nat.iter k update_spec a ++ Nat.iter k update_spec b.
Proof.
  induction k as [|k IH]; intros a b.
  - reflexivity.
  - rewrite !Nat.iter_succ. now rewrite IH, update_spec_app.
Qed.

Lemma life_particle_step (p : Particle) :
  life (particle_step p) = (life p - 1)%Z.
Proof. reflexivity. Qed.

Lemma life_iter_step (k : nat) (p : Particle) :
  life (Nat.iter k particle_step p) = (life p - Z.of_nat k)%Z.
Proof.
  induction k as [|k IH].
  - simpl. lia.
  - rewrite Nat.iter_succ, life_particle_step, IH. lia.
Qed.

(** A particle outlives exactly the updates its life allows. *)
Lemma iter_update_spec_single (k : nat) (p : Particle) :
  Nat.iter k update_spec [p]
  = if (Z.of_nat k <? life p)%Z || Nat.eqb k 0
    then [Nat.iter k particle_step p] else [].
Proof.
  induction k as [|k IH].
  - simpl. now rewrite orb_true_r.
  - rewrite !Nat.iter_succ, IH. cbn [Nat.eqb]. rewrite orb_false_r.
    destruct (Z.of_nat (S k) <? life p)%Z eqn:E.
    + assert (E1 : ((Z.of_nat k <? life p)%Z || Nat.eqb k 0) = true).
      { apply orb_true_iff. left. apply Z.ltb_lt. apply Z.ltb_lt in E. lia. }
      rewrite E1. unfold update_spec. cbn [map filter].
      rewrite life_particle_step, life_iter_step.
      assert (E2 : (0 <? life p - Z.of_nat k - 1)%Z = true).
      { apply Z.ltb_lt. apply Z.ltb_lt in E. lia. }
      now rewrite E2.
    + destruct ((Z.of_nat k <? life p)%Z || Nat.eqb k 0); [|reflexivity].
      unfold update_spec. cbn [map filter].
      rewrite life_particle_step, life_iter_step.
      assert (E2 : (0 <? life p - Z.of_nat k - 1)%Z = false).
      { apply Z.ltb_ge. apply Z.ltb_ge in E. lia. }
      now rewrite E2.
Qed.

Lemma update_n_track (k : nat) (pre post : list Particle) (p : Particle) :
  update_n k (pre ++ p :: post)
  = Some (Nat.iter k update_spec pre
          ++ (if (Z.of_nat k <? life p)%Z || Nat.eqb k 0
              then [Nat.iter k particle_step p] else [])
          ++ Nat.iter k update_spec post).
Proof.
  rewrite update_n_spec.
  change (p :: post) with ([p] ++ post).
  now rewrite !iter_update_spec_app, iter_update_spec_single.
Qed.

(** C4: a particle of life 60, anywhere in the list, is still in its place
    (with life [60 - k], at least 1) after [k <= 59] updates and is gone
    after the 60th, the other particles being what their own updates leave;
    every update takes one unit of life off a particle. *)
Theorem particle_lifetime (pre post : list Particle) (p : Particle) :
  life p = 60%Z ->
  (forall k : nat, (k <= 59)%nat ->
     exists pre' post' : list Particle,
       update_n k pre = Some pre'
       /\ update_n k post = Some post'
       /\ update_n k (pre ++ p :: post)
          = Some (pre' ++ Nat.iter k particle_step p :: post')
       /\ life (Nat.iter k particle_step p) = (60 - Z.of_nat k)%Z
       /\ (0 < life (Nat.iter k particle_step p))%Z)
  /\ (exists pre' post' : list Particle,
        update_n 60 pre = Some pre'
        /\ update_n 60 post = Some post'
        /\ update_n 60 (pre ++ p :: post) = Some (pre' ++ post'))
  /\ (forall q : Particle, life (particle_step q) = life q - 1
                           /\ life (particle_step q) < life q)%Z.
Proof.
  intros Hl. split; [|split].
  - intros k Hk.
    exists (Nat.iter k update_spec pre), (Nat.iter k update_spec post).
    rewrite update_n_track, !update_n_spec, life_iter_step, Hl.
    assert (E : (Z.of_nat k <? 60)%Z = true) by (apply Z.ltb_lt; lia).
    rewrite E. cbn [orb app].
    repeat split; lia.
  - exists (Nat.iter 60 update_spec pre), (Nat.iter 60 update_spec post).
    rewrite update_n_track, !update_n_spec, Hl.
    repeat split.
  - intros q. rewrite life_particle_step. lia.
Qed.

Lemma particle_lifetime_witness :
  let p := mkParticle 800 450 1 0 60 0 in
  life p = 60%Z
  /\ exists pre' post' : list Particle,
       update_n 60 [] = Some pre'
       /\ update_n 60 [] = Some post'
       /\ update_n 60 ([] ++ [p]) = Some (pre' ++ post').
Proof.
  intros p.
  assert (H : life p = 60%Z) by reflexivity.
  split; [exact H|].
  exact (proj1 (proj2 (particle_lifetime [] [] p H))).
Defined.

(** ** Mode 5: spawning *)

Lemma spawn_from_combine (self : AudioVisualizer) (n : nat) (bands : list (option R)) :
  forall start : nat,
    let new :=
      flat_map (fun im : nat * option R =>
                  match snd im with
                  | Some magnitude =>
                      if Rgtb magnitude 5
                      then [new_particle self (fst im) n magnitude]
                      else []
                  | None => []
                  end)
               (combine (seq start (length bands)) bands) in
    length new = length (filter loud bands)
    /\ Forall (fun p => px p = IZR (WIDTH self / 2)
                        /\ py p = IZR (HEIGHT self / 2)
                        /\ life p = 60%Z) new.
Proof.
  induction bands as [|m bands IH]; intros start.
  - split; [reflexivity | constructor].
  - cbn [length seq combine flat_map filter snd fst loud].
    destruct (IH (S start)) as [L F].
    destruct m as [magnitude|]; cbn [loud].
    + destruct (Rgtb magnitude 5); cbn [app length].
      * split; [now f_equal|]. constructor; [|exact F]. repeat split.
      * split; assumption.
    + split; assumption.
Qed.

Lemma spawn_from_bands_spec (self : AudioVisualizer) (bands : list (option R)) :
  length (spawn_from_bands self bands) = length (filter loud bands)
  /\ Forall (fun p => px p = IZR (WIDTH self / 2)
                      /\ py p = IZR (HEIGHT self / 2)
                      /\ life p = 60%Z)
            (spawn_from_bands self bands).
Proof.
  exact (spawn_from_combine self (length bands) bands 0).
Qed.

Lemma set_particles_same (self : AudioVisualizer) :
  set_particles (particles self) self = self.
Proof. now destruct self. Qed.

Lemma firstn_repeat_le {A : Type} (x : A) (n m : nat) :
  (n <= m)%nat -> firstn n (repeat x m) = repeat x n.
Proof.
  revert m; induction n as [|n IH]; intros [|m] H; simpl; try lia; auto.
  now rewrite IH by lia.
Qed.

(** The bands of a constant series are that constant. *)
Lemma bands_of_constant (c : R) (len n : nat) :
  (1 <= n <= len)%nat ->
  get_frequency_bands (repeat c len) n = Some (repeat (Some c) n).
Proof.
  intros Hn. unfold get_frequency_bands.
  assert (E : Nat.eqb n 0 = false) by (apply Nat.eqb_neq; lia).
  rewrite E, repeat_length. f_equal.
  transitivity (map (fun _ : nat => Some c) (seq 0 n)).
  - apply map_ext_in. intros i Hi. apply in_seq in Hi.
    destruct (band_bounds len n i Hn ltac:(lia)) as (Hw & Hb & Hle).
    unfold py_slice. rewrite skipn_repeat.
    replace (i * (len / n) + len / n - i * (len / n))%nat with (len / n)%nat by lia.
    rewrite firstn_repeat_le by lia.
    destruct (len / n)%nat as [|w] eqn:W; [lia|].
    apply np_mean_repeat.
  - now rewrite map_const, length_seq.
Qed.

Lemma filter_loud_repeat (c : R) (n : nat) :
  c > 5 -> filter loud (repeat (Some c) n) = repeat (Some c) n.
Proof.
  intros Hc. induction n as [|n IH]; [reflexivity|].
  cbn [repeat filter loud]. rewrite Rgtb_true by exact Hc. now rewrite IH.
Qed.

(** C10: one call of the mode-5 builder spawns at most 32 particles: none
    when the beat flag is not set, and one per band of magnitude above 5
    among the 32 bands when it is, each created at the canvas centre with
    life 60.  They are appended to the list, and the update that ends the
    same call steps them once with the rest, so the builder leaves the
    survivors of the old particles followed by the stepped new ones, at
    most 32 more than before. *)
Theorem spawn_at_most_32 (self : AudioVisualizer) (fft_data : list R) :
  exists (bands : list (option R)) (new : list Particle),
    get_frequency_bands fft_data 32 = Some bands
    /\ length bands = 32%nat
    /\ new = (if beat_detected self then spawn_from_bands self bands else [])
    /\ length new
       = (if beat_detected self then length (filter loud bands) else 0%nat)
    /\ (length new <= 32)%nat
    /\ Forall (fun p => px p = IZR (WIDTH self / 2)
                        /\ py p = IZR (HEIGHT self / 2)
                        /\ life p = 60%Z) new
    /\ spawn_particles self fft_data
       = Some (set_particles (particles self ++ new) self)
    /\ draw_mode_5_particles self fft_data
       = Some (set_particles
                 (update_spec (particles self) ++ map particle_step new) self)
    /\ (length (update_spec (particles self) ++ map particle_step new)
        <= length (particles self) + 32)%nat.
Proof.
  assert (Hb : exists bands, get_frequency_bands fft_data 32 = Some bands
                             /\ length bands = 32%nat).
  { eexists. split; [reflexivity|]. now rewrite length_map, length_seq. }
  destruct Hb as (bands & Hb & Hlen).
  destruct (spawn_from_bands_spec self bands) as [L F].
  assert (Hle : (length (filter loud bands) <= 32)%nat).
  { rewrite <- Hlen. apply filter_length_le. }
  exists bands, (if beat_detected self then spawn_from_bands self bands else []).
  set (new := if beat_detected self then spawn_from_bands self bands else []).
  assert (Hn : length new
               = (if beat_detected self then length (filter loud bands) else 0%nat)).
  { unfold new. destruct (beat_detected self); [exact L | reflexivity]. }
  assert (Hn32 : (length new <= 32)%nat).
  { rewrite Hn. destruct (beat_detected self); lia. }
  assert (F60 : Forall (fun p => px p = IZR (WIDTH self / 2)
                                 /\ py p = IZR (HEIGHT self / 2)
                                 /\ life p = 60%Z) new).
  { unfold new. destruct (beat_detected self); [exact F | constructor]. }
  assert (S : spawn_particles self fft_data
              = Some (set_particles (particles self ++ new) self)).
  { unfold spawn_particles, new. destruct (beat_detected self).
    - rewrite Hb. reflexivity.
    - now rewrite app_nil_r, set_particles_same. }
  assert (U : update_spec new = map particle_step new).
  { unfold update_spec. clear - F60.
    induction F60 as [|p l (_ & _ & Hp) _ IH]; [reflexivity|].
    cbn [map filter]. rewrite life_particle_step, Hp.
    change (0 <? 60 - 1)%Z with true. now rewrite IH. }
  split; [exact Hb|]. split; [exact Hlen|]. split; [reflexivity|].
  split; [exact Hn|]. split; [exact Hn32|]. split; [exact F60|].
  split; [exact S|]. split.
  - unfold draw_mode_5_particles. rewrite S, update_particles_spec.
    cbn [option_map]. simpl particles.
    rewrite update_spec_app, U. reflexivity.
  - rewrite length_app, length_map.
    pose proof (update_spec_length (particles self)). lia.
Qed.

Lemma spawn_at_most_32_witness :
  let old := mkParticle 800 450 1 0 60 0 in
  let self := set_particles [old] (set_beat_detected true (init 1600 900)) in
  exists new : list Particle,
    draw_mode_5_particles self (repeat 6 1024)
    = Some (set_particles (particle_step old :: map particle_step new) self)
    /\ length new = 32%nat
    /\ Forall (fun p => px p = 800 /\ py p = 450 /\ life p = 60%Z) new.
Proof.
  intros old self.
  destruct (spawn_at_most_32 self (repeat 6 1024))
    as (bands & new & Hb & _ & _ & Hn & _ & F & _ & D & _).
  rewrite bands_of_constant in Hb by lia. injection Hb as Hb. subst bands.
  exists new. split; [exact D|]. split.
  - assert (B : beat_detected self = true) by reflexivity.
    rewrite B in Hn. rewrite Hn.
    change (length (filter loud (repeat (Some 6) 32)) = 32%nat).
    rewrite filter_loud_repeat by lra. apply repeat_length.
  - exact F.
Defined.

(** ** Mode 3: waveform *)

Lemma py_range_step_one (n : nat) : py_range_step n 1 = seq 0 n.
Proof.
  unfold py_range_step.
  replace ((n + 1 - 1) / 1)%nat with n by (rewrite Nat.div_1_r; lia).
  rewrite <- (map_id (seq 0 n)) at 2.
  apply map_ext. intros k. lia.
Qed.

(** C6 fails on the code: with 2048 samples and a canvas 1600 wide the step
    is [2048 // 1600 = 1], nothing is dropped, and the polyline has 2048
    points whose [x] runs from 0 to 2047, past the canvas width. *)
Theorem waveform_points_exceed_width (self : AudioVisualizer) (audio_data : list Z) :
  WIDTH self = 1600%Z ->
  length audio_data = 2048%nat ->
  exists points : list (Z * Z),
    draw_mode_3_waveform self audio_data = Some points
    /\ length points = 2048%nat
    /\ (forall i : nat, (i < 2048)%nat ->
          exists y : Z, nth_error points i = Some (Z.of_nat i, y))
    /\ (exists y : Z, nth_error points 2047 = Some (2047%Z, y))
    /\ (WIDTH self <= 2047)%Z.
Proof.
  intros Hw Hl.
  unfold draw_mode_3_waveform. rewrite Hw, Hl.
  change (1600 =? 0)%Z with false.
  change (Z.of_nat 2048 / 1600)%Z with 1%Z.
  change (1 =? 0)%Z with false. change (1 <? 0)%Z with false.
  cbv iota. change (Z.to_nat 1) with 1%nat. rewrite py_range_step_one.
  eexists. split; [reflexivity|].
  assert (P : forall i : nat, (i < 2048)%nat ->
            exists y : Z,
              nth_error
                (map (fun i0 : nat =>
                        ((Z.of_nat i0 / 1)%Z,
                         (HEIGHT self / 2
                          + Z.quot (nth i0 audio_data 0 * (HEIGHT self / 3)) 32768)%Z))
                     (seq 0 2048)) i
              = Some (Z.of_nat i, y)).
  { intros i Hi. eexists.
    rewrite nth_error_map, nth_error_seq.
    assert (E : (i <? 2048)%nat = true) by (apply Nat.ltb_lt; exact Hi).
    rewrite E. cbn [option_map Nat.add]. rewrite Z.div_1_r. reflexivity. }
  split; [now rewrite length_map, length_seq|].
  split; [exact P|].
  split; [exact (P 2047%nat ltac:(lia)) | lia].
Qed.

Lemma waveform_points_exceed_width_witness :
  exists points : list (Z * Z),
    draw_mode_3_waveform (init 1600 900) (repeat 0%Z 2048) = Some points
    /\ length points = 2048%nat.
Proof.
  destruct (waveform_points_exceed_width (init 1600 900) (repeat 0%Z 2048))
    as (points & H1 & H2 & _).
  - reflexivity.
  - apply repeat_length.
  - exists points. split; [exact H1 | exact H2].
Defined.

(** ** Spectral analyzer *)

Lemma compressed_spectrum_nonempty (data : list Z) :
  data <> [] ->
  compressed_spectrum data
  = Some (map log_compress
            (map (fun m => m / (IZR CHUNK / 2))
               (firstn (Z.to_nat (CHUNK / 2))
                  (fft_abs (np_mul (map IZR data) (hamming (length data))))))).
Proof.
  destruct data; [contradiction | reflexivity].
Qed.

Lemma hamming_length (M : nat) : length (hamming M) = M.
Proof.
  unfold hamming.
  destruct M as [|[|M]]; try reflexivity.
  now rewrite length_map, length_seq.
Qed.

Lemma np_mul_length (a : list R) :
  forall b : list R, length b = length a -> length (np_mul a b) = length a.
Proof.
  induction a as [|x a IH]; intros [|y b] H; simpl in *; try lia.
  now rewrite IH by lia.
Qed.

Lemma np_mul_zero (n : nat) :
  forall h : list R, length h = n -> np_mul (repeat 0 n) h = repeat 0 n.
Proof.
  induction n as [|n IH]; intros [|y h] H; simpl in *; try lia; auto.
  rewrite IH by lia. now rewrite Rmult_0_l.
Qed.

Lemma np_sum_zero {A : Type} (f : A -> R) (l : list A) :
  (forall x, In x l -> f x = 0) -> np_sum (map f l) = 0.
Proof.
  induction l as [|x l IH]; intros H; simpl.
  - reflexivity.
  - rewrite (H x) by now left. rewrite IH; [lra|].
    intros y Hy. apply H. now right.
Qed.

Lemma nth_repeat_zero (j n : nat) : nth j (repeat 0 n) 0 = 0.
Proof.
  revert j; induction n as [|n IH]; intros [|j]; simpl; auto.
Qed.

Lemma fft_abs_zero (n : nat) : fft_abs (repeat 0 n) = repeat 0 n.
Proof.
  unfold fft_abs.
  transitivity (map (fun _ : nat => 0) (seq 0 (length (repeat 0 n)))).
  2: now rewrite map_const, length_seq, repeat_length.
  apply map_ext. intros k.
  assert (Hre : dft_re (repeat 0 n) k = 0).
  { unfold dft_re. apply np_sum_zero. intros j _.
    rewrite nth_repeat_zero. lra. }
  assert (Him : dft_im (repeat 0 n) k = 0).
  { unfold dft_im. apply np_sum_zero. intros j _.
    rewrite nth_repeat_zero. lra. }
  rewrite Hre, Him.
  replace (0 * 0 + 0 * 0) with 0 by lra. apply sqrt_0.
Qed.

Lemma firstn_repeat_min {A : Type} (x : A) (k n : nat) :
  firstn k (repeat x n) = repeat x (Nat.min k n).
Proof.
  revert n; induction k as [|k IH]; intros [|n]; simpl; auto.
  now rewrite IH.
Qed.

Lemma log_compress_zero : log_compress 0 = 0.
Proof.
  unfold log_compress, log10. rewrite Rplus_0_l, ln_1. unfold Rdiv. lra.
Qed.

Lemma ln_10_pos : 0 < ln 10.
Proof.
  rewrite <- ln_1. apply ln_increasing; lra.
Qed.

Lemma log_compress_nonneg (m : R) : 0 <= m -> 0 <= log_compress m.
Proof.
  intros Hm. unfold log_compress, log10.
  assert (H1 : 0 <= ln (m + 1)).
  { destruct (Req_dec m 0) as [->|Hne].
    - rewrite Rplus_0_l, ln_1. lra.
    - rewrite <- ln_1. left. apply ln_increasing; lra. }
  pose proof ln_10_pos as H10.
  apply Rmult_le_pos; [|lra].
  apply Rmult_le_pos; [exact H1|].
  left. now apply Rinv_0_lt_compat.
Qed.

Lemma compressed_spectrum_zero (n : nat) :
  (1 <= n)%nat ->
  compressed_spectrum (repeat 0%Z n)
  = Some (repeat 0 (Nat.min (Z.to_nat (CHUNK / 2)) n)).
Proof.
  intros Hn.
  rewrite compressed_spectrum_nonempty by (destruct n; [lia | discriminate]).
  rewrite map_repeat, repeat_length.
  change (IZR 0) with 0.
  rewrite np_mul_zero by apply hamming_length.
  rewrite fft_abs_zero, firstn_repeat_min, !map_repeat.
  replace (0 / (IZR CHUNK / 2)) with 0 by (unfold CHUNK; lra).
  now rewrite log_compress_zero.
Qed.

(** C7: for a frame of zeros (of the frame length 2048, or of any positive
    length) every value of the compressed spectrum, before smoothing, is 0;
    and for every magnitude [m >= 0] the argument [m + 1] of the logarithm
    is positive, so [log10(m + 1) * 20] is defined, and it is not
    negative. *)
Theorem silent_frame_compresses_to_zero :
  compressed_spectrum (repeat 0%Z (Z.to_nat CHUNK)) = Some (repeat 0 1024)
  /\ (forall n : nat, (1 <= n)%nat ->
        exists spectrum : list R,
          compressed_spectrum (repeat 0%Z n) = Some spectrum
          /\ Forall (fun v => v = 0) spectrum)
  /\ (forall m : R, 0 <= m -> 0 < m + 1 /\ 0 <= log_compress m).
Proof.
  split; [|split].
  - rewrite compressed_spectrum_zero by (vm_compute; lia). reflexivity.
  - intros n Hn. eexists. split; [now apply compressed_spectrum_zero|].
    apply Forall_forall. intros v Hv. now apply repeat_spec in Hv.
  - intros m Hm. split; [lra | now apply log_compress_nonneg].
Qed.

Lemma silent_frame_compresses_to_zero_witness :
  (exists spectrum : list R,
     compressed_spectrum (repeat 0%Z 4) = Some spectrum
     /\ Forall (fun v => v = 0) spectrum)
  /\ 0 <= log_compress 3.
Proof.
  destruct silent_frame_compresses_to_zero as (_ & A & B).
  split.
  - apply (A 4%nat). lia.
  - apply (B 3). lra.
Defined.

(** ** Temporal smoothing *)

Lemma fft_abs_length (x : list R) : length (fft_abs x) = length x.
Proof. unfold fft_abs. now rewrite length_map, length_seq. Qed.

Lemma compressed_spectrum_length (data : list Z) :
  data <> [] ->
  exists s : list R,
    compressed_spectrum data = Some s
    /\ length s = Nat.min (Z.to_nat (CHUNK / 2)) (length data).
Proof.
  intros H. rewrite compressed_spectrum_nonempty by exact H.
  eexists. split; [reflexivity|].
  rewrite !length_map, length_firstn, fft_abs_length, np_mul_length.
  - now rewrite length_map.
  - now rewrite hamming_length, length_map.
Qed.

Lemma mean_axis0_spec (r : list R) (rest : list (list R)) :
  Forall (fun r' => length r' = length r) rest ->
  mean_axis0 (r :: rest)
  = Some (map (fun j => np_sum (map (fun r' => nth j r' 0) (r :: rest))
                        / INR (length (r :: rest)))
              (seq 0 (length r))).
Proof.
  intros H. unfold mean_axis0.
  assert (E : forallb (fun r' => Nat.eqb (length r') (length r)) (r :: rest) = true).
  { apply forallb_forall. intros r' [<-|Hin].
    - apply Nat.eqb_refl.
    - apply Nat.eqb_eq. rewrite Forall_forall in H. now apply H. }
  now rewrite E.
Qed.

Lemma nth_map_seq (f : nat -> R) (n j : nat) :
  (j < n)%nat -> nth j (map f (seq 0 n)) 0 = f j.
Proof.
  intros H.
  rewrite (nth_indep (map f (seq 0 n)) 0 (f 0%nat))
    by (now rewrite length_map, length_seq).
  now rewrite map_nth, seq_nth.
Qed.

Lemma mean_axis0_one (s1 : list R) : mean_axis0 [s1] = Some s1.
Proof.
  rewrite mean_axis0_spec by constructor. f_equal.
  apply nth_ext with (d := 0) (d' := 0).
  - now rewrite length_map, length_seq.
  - intros j Hj. rewrite length_map, length_seq in Hj.
    rewrite nth_map_seq by exact Hj. simpl. field.
Qed.

(** C8: on the first two calls of [analyze_audio] from the initial state the
    smoothing history holds one and then two spectra, and the result is
    their element-wise mean: the first spectrum itself on tick 1 and the
    half-sum of the two on tick 2, not a third of the sum as three slots
    padded with zeros would give; the divisor reaches 3 on tick 3. *)
Theorem smoothing_at_startup (w h : Z) (f1 f2 f3 : list Z) :
  f1 <> [] ->
  length f2 = length f1 ->
  length f3 = length f1 ->
  exists (s1 s2 s3 sm2 sm3 : list R) (st1 st2 st3 : AudioVisualizer),
    compressed_spectrum f1 = Some s1
    /\ compressed_spectrum f2 = Some s2
    /\ compressed_spectrum f3 = Some s3
    /\ analyze_audio (init w h) f1 = Some (s1, st1)
    /\ freq_smooth st1 = [s1]
    /\ analyze_audio st1 f2 = Some (sm2, st2)
    /\ freq_smooth st2 = [s1; s2]
    /\ length sm2 = length s1
    /\ (forall j : nat, (j < length s1)%nat ->
          nth j sm2 0 = (nth j s1 0 + nth j s2 0) / 2)
    /\ analyze_audio st2 f3 = Some (sm3, st3)
    /\ freq_smooth st3 = [s1; s2; s3]
    /\ length sm3 = length s1
    /\ (forall j : nat, (j < length s1)%nat ->
          nth j sm3 0 = (nth j s1 0 + nth j s2 0 + nth j s3 0) / 3).
Proof.
  intros H1 L2 L3.
  assert (H2 : f2 <> []) by (intros ->; destruct f1; [contradiction | discriminate]).
  assert (H3 : f3 <> []) by (intros ->; destruct f1; [contradiction | discriminate]).
  destruct (compressed_spectrum_length f1 H1) as (s1 & C1 & N1).
  destruct (compressed_spectrum_length f2 H2) as (s2 & C2 & N2).
  destruct (compressed_spectrum_length f3 H3) as (s3 & C3 & N3).
  assert (E2 : length s2 = length s1) by congruence.
  assert (E3 : length s3 = length s1) by congruence.
  set (st1 := set_freq_smooth [s1] (init w h)).
  set (st2 := set_freq_smooth [s1; s2] st1).
  set (st3 := set_freq_smooth [s1; s2; s3] st2).
  exists s1, s2, s3.
  eexists. eexists. exists st1, st2, st3.
  split; [exact C1|]. split; [exact C2|]. split; [exact C3|].
  split.
  { unfold analyze_audio. rewrite C1.
    change (freq_smooth (set_freq_smooth ?v _)) with v.
    change (deque_append 3 (freq_smooth (init w h)) s1) with [s1].
    now rewrite mean_axis0_one. }
  split; [reflexivity|].
  split.
  { unfold analyze_audio. rewrite C2.
    change (freq_smooth (set_freq_smooth ?v _)) with v.
    change (deque_append 3 (freq_smooth st1) s2) with [s1; s2].
    rewrite mean_axis0_spec by (constructor; [exact E2 | constructor]).
    reflexivity. }
  split; [reflexivity|].
  split; [now rewrite length_map, length_seq|].
  split.
  { intros j Hj. rewrite nth_map_seq by exact Hj. simpl. field. }
  split.
  { unfold analyze_audio. rewrite C3.
    change (freq_smooth (set_freq_smooth ?v _)) with v.
    change (deque_append 3 (freq_smooth st2) s3) with [s1; s2; s3].
    rewrite mean_axis0_spec
      by (constructor; [exact E2 | constructor; [exact E3 | constructor]]).
    reflexivity. }
  split; [reflexivity|].
  split; [now rewrite length_map, length_seq|].
  intros j Hj. rewrite nth_map_seq by exact Hj. simpl. field.
Qed.

Lemma smoothing_at_startup_witness :
  exists (s1 s2 : list R) (sm2 : list R) (st1 st2 : AudioVisualizer),
    analyze_audio (init 1600 900) [1%Z; 2%Z] = Some (s1, st1)
    /\ analyze_audio st1 [3%Z; 4%Z] = Some (sm2, st2)
    /\ freq_smooth st2 = [s1; s2]
    /\ (forall j : nat, (j < length s1)%nat ->
          nth j sm2 0 = (nth j s1 0 + nth j s2 0) / 2).
Proof.
  destruct (smoothing_at_startup 1600 900 [1%Z; 2%Z] [3%Z; 4%Z] [5%Z; 6%Z])
    as (s1 & s2 & s3 & sm2 & sm3 & st1 & st2 & st3 & H).
  - discriminate.
  - reflexivity.
  - reflexivity.
  - exists s1, s2, sm2, st1, st2.
    destruct H as (_ & _ & _ & A & _ & B & C & _ & D & _).
    repeat split; assumption.
Defined.

(** * Further properties of the code *)

(** ** Beat detector *)

(** From the initial state a constant, non-negative bass energy is never
    answered true, however long it lasts. *)
Theorem constant_energy_never_fires (w h : Z) (c : R) (ticks : list (list R)) :
  0 <= c ->
  Forall (fun s => bass_energy s = c) ticks ->
  fst (detect_beats (init w h) ticks) = repeat false (length ticks)
  /\ beat_cooldown (snd (detect_beats (init w h) ticks)) = 0%Z.
Proof.
  intros Hc Hall.
  destruct (detect_beats_constant c ticks Hc Hall (init w h) 0)
    as (A & B & _); try reflexivity; try lia.
  split; assumption.
Qed.

Lemma constant_energy_never_fires_witness :
  fst (detect_beats (init 1600 900) (repeat [7] 50)) = repeat false 50.
Proof.
  destruct (constant_energy_never_fires 1600 900 7 (repeat [7] 50)) as [A _].
  - lra.
  - apply Forall_bass_energy_repeat.
  - rewrite repeat_length in A. exact A.
Defined.

Lemma detect_beat_true_cooldown (self : AudioVisualizer) (s : list R) :
  fst (detect_beat self s) = true ->
  beat_cooldown (snd (detect_beat self s)) = 10%Z.
Proof.
  unfold detect_beat. cbv zeta.
  destruct (0 <? _)%Z; [discriminate|].
  destruct (gt_opt _ _); [reflexivity | discriminate].
Qed.

Lemma detect_beats_silenced (ticks : list (list R)) :
  forall self : AudioVisualizer,
    (Z.of_nat (length ticks) <= beat_cooldown self)%Z ->
    fst (detect_beats self ticks) = repeat false (length ticks)
    /\ beat_cooldown (snd (detect_beats self ticks))
       = (beat_cooldown self - Z.of_nat (length ticks))%Z.
Proof.
  induction ticks as [|s ticks IH]; intros self Hlen.
  - simpl. split; [reflexivity | lia].
  - rewrite detect_beats_cons. cbn [fst snd].
    cbn [length] in Hlen.
    destruct (detect_beat_cooling self s) as [Hf Hcd]; [lia|].
    destruct (IH (snd (detect_beat self s))) as (H1 & H2).
    + rewrite Hcd. lia.
    + rewrite Hf, H1, H2, Hcd. split; [reflexivity|]. cbn [length]. lia.
Qed.

(** Two true answers are at least eleven calls apart: after a call that
    answered true, the next ten calls answer false whatever their
    spectra. *)
Theorem beats_eleven_apart (self : AudioVisualizer) (s : list R)
  (after : list (list R)) :
  fst (detect_beat self s) = true ->
  (length after <= 10)%nat ->
  fst (detect_beats (snd (detect_beat self s)) after) = repeat false (length after).
Proof.
  intros Ht Hl.
  apply detect_beats_silenced.
  rewrite (detect_beat_true_cooldown self s Ht). lia.
Qed.

Lemma first_spike_fires :
  fst (detect_beat (snd (detect_beats (init 1600 900) (repeat [100] 20))) [200]) = true.
Proof.
  destruct (detect_beats_constant 100 (repeat [100] 20) ltac:(lra)
              (Forall_bass_energy_repeat 100 20) (init 1600 900) 0)
    as (_ & Q2 & Q3 & Q4); try reflexivity; try lia.
  rewrite repeat_length in Q4. cbn [Nat.add Nat.min] in Q4.
  set (s20 := snd (detect_beats (init 1600 900) (repeat [100] 20))) in *.
  destruct (detect_beat_idle s20 [200] Q2) as [Hflag _].
  rewrite Hflag, bass_energy_singleton, Q3, Q4.
  rewrite deque_append_snoc by lia. rewrite repeat_length.
  change (21 - 20)%nat with 1%nat.
  simpl. apply Rgtb_true. lra.
Qed.

Lemma beats_eleven_apart_witness :
  fst (detect_beats
         (snd (detect_beat (snd (detect_beats (init 1600 900) (repeat [100] 20)))
                 [200]))
         (repeat [1000] 10))
  = repeat false (length (repeat [1000] 10)).
Proof.
  apply (beats_eleven_apart
           (snd (detect_beats (init 1600 900) (repeat [100] 20))) [200]
           (repeat [1000] 10)).
  - exact first_spike_fires.
  - rewrite repeat_length. lia.
Defined.

Lemma skipn_skipn_snoc {A : Type} (m : nat) (l : list A) (x : A) :
  (1 <= m)%nat ->
  deque_append m (skipn (length l - m) l) x
  = skipn (length (l ++ [x]) - m) (l ++ [x]).
Proof.
  intros Hm.
  rewrite deque_append_snoc by exact Hm.
  rewrite length_skipn, skipn_skipn, length_app. cbn [length].
  rewrite skipn_app.
  replace (length l + 1 - m - length l)%nat with 0%nat by lia.
  cbn [skipn]. f_equal. f_equal. lia.
Qed.

Lemma detect_beats_history (ticks : list (list R)) :
  forall (self : AudioVisualizer) (seen : list R),
    beat_history self = skipn (length seen - 20) seen ->
    beat_history (snd (detect_beats self ticks))
    = skipn (length (seen ++ map bass_energy ticks) - 20)
            (seen ++ map bass_energy ticks).
Proof.
  induction ticks as [|s ticks IH]; intros self seen H.
  - simpl. now rewrite app_nil_r.
  - rewrite detect_beats_cons. cbn [snd map].
    replace (seen ++ bass_energy s :: map bass_energy ticks)
      with ((seen ++ [bass_energy s]) ++ map bass_energy ticks)
      by (now rewrite <- app_assoc).
    apply IH.
    rewrite detect_beat_history, H.
    apply skipn_skipn_snoc. lia.
Qed.

(** The history is a sliding window: after any number of calls from the
    initial state it holds the bass energies of the last twenty calls (of
    all of them while there are fewer), oldest first. *)
Theorem beat_history_is_last_twenty (w h : Z) (ticks : list (list R)) :
  beat_history (snd (detect_beats (init w h) ticks))
  = skipn (length ticks - 20) (map bass_energy ticks)
  /\ length (beat_history (snd (detect_beats (init w h) ticks)))
     = Nat.min (length ticks) 20.
Proof.
  assert (E : beat_history (snd (detect_beats (init w h) ticks))
              = skipn (length ticks - 20) (map bass_energy ticks)).
  { rewrite (detect_beats_history ticks (init w h) []) by reflexivity.
    cbn [app]. now rewrite length_map. }
  split; [exact E|].
  rewrite E, length_skipn, length_map. lia.
Qed.

Lemma np_sum_nonneg (l : list R) : Forall (fun v => 0 <= v) l -> 0 <= np_sum l.
Proof.
  induction 1 as [|x l Hx _ IH]; simpl; lra.
Qed.

Lemma Forall_skipn {A : Type} (P : A -> Prop) (n : nat) (l : list A) :
  Forall P l -> Forall P (skipn n l).
Proof.
  revert l; induction n as [|n IH]; intros l H; [exact H|].
  destruct l as [|x l]; [constructor|].
  cbn [skipn]. apply IH. now inversion H.
Qed.

(** Against a history of non-negative energies a bass energy of zero is
    answered false: silence is never a beat, whatever went before. *)
Theorem silence_never_fires (self : AudioVisualizer) (s : list R) :
  beat_threshold self = 13 / 10 ->
  Forall (fun v => 0 <= v) (beat_history self) ->
  bass_energy s = 0 ->
  fst (detect_beat self s) = false.
Proof.
  intros Hth Hh E0.
  unfold detect_beat. cbv zeta.
  change (beat_cooldown (set_beat_history _ self)) with (beat_cooldown self).
  change (beat_threshold (set_beat_history _ self)) with (beat_threshold self).
  change (beat_history (set_beat_history ?v self)) with v.
  destruct (0 <? beat_cooldown self)%Z; [reflexivity|].
  rewrite deque_append_snoc by lia.
  set (r := skipn (S (length (beat_history self)) - 20) (beat_history self)).
  assert (Hr : 0 <= np_sum r) by (apply np_sum_nonneg, Forall_skipn, Hh).
  rewrite np_mean_nonempty by (rewrite length_app; simpl; lia).
  rewrite np_sum_app, length_app, Hth, E0.
  cbn [option_map gt_opt length]. simpl np_sum.
  rewrite Rgtb_false; [reflexivity|].
  assert (0 < INR (length r + 1)) by (apply lt_0_INR; lia).
  assert (0 <= (np_sum r + (0 + 0)) / INR (length r + 1)).
  { apply Rmult_le_pos; [lra|]. left. now apply Rinv_0_lt_compat. }
  lra.
Qed.

Lemma silence_never_fires_witness :
  fst (detect_beat (init 1600 900) [0; 0; 0]) = false.
Proof.
  apply silence_never_fires.
  - reflexivity.
  - constructor.
  - unfold bass_energy, py_slice. rewrite bass_range_eq. simpl. lra.
Defined.

(** ** Band aggregation *)

(** Asking for more bands than there are samples gives slices of width 0:
    the call succeeds and every band is NaN. *)
Theorem bands_beyond_length_are_nan (series : list R) (n : nat) :
  (length series < n)%nat ->
  get_frequency_bands series n = Some (repeat None n).
Proof.
  intros H. unfold get_frequency_bands.
  assert (E : Nat.eqb n 0 = false) by (apply Nat.eqb_neq; lia).
  rewrite E, Nat.div_small by exact H. f_equal.
  transitivity (map (fun _ : nat => @None R) (seq 0 n)).
  - apply map_ext. intros i. rewrite Nat.mul_0_r. reflexivity.
  - now rewrite map_const, length_seq.
Qed.

Lemma bands_beyond_length_are_nan_witness :
  get_frequency_bands [1; 2; 3] 5 = Some (repeat None 5).
Proof.
  apply bands_beyond_length_are_nan. simpl. lia.
Defined.

Lemma Forall_firstn_of {A : Type} (P : A -> Prop) (n : nat) (l : list A) :
  Forall P l -> Forall P (firstn n l).
Proof.
  revert l; induction n as [|n IH]; intros l H; [constructor|].
  destruct l as [|x l]; [constructor|].
  cbn [firstn]. inversion H; subst. constructor; auto.
Qed.

(** Averaging keeps the sign: with [1 <= n <= len(series)] no band is NaN,
    and a series without negative samples gives bands without negative
    values. *)
Theorem bands_nonnegative (series : list R) (n : nat) :
  (1 <= n <= length series)%nat ->
  Forall (fun v => 0 <= v) series ->
  exists bands : list (option R),
    get_frequency_bands series n = Some bands
    /\ length bands = n
    /\ Forall (fun b => exists v : R, b = Some v /\ 0 <= v) bands.
Proof.
  intros Hn Hall. unfold get_frequency_bands.
  assert (E : Nat.eqb n 0 = false) by (apply Nat.eqb_neq; lia).
  rewrite E. eexists. split; [reflexivity|].
  split; [now rewrite length_map, length_seq|].
  apply Forall_forall. intros b Hb.
  apply in_map_iff in Hb. destruct Hb as (i & <- & Hi).
  apply in_seq in Hi.
  destruct (band_bounds (length series) n i Hn ltac:(lia)) as (Hw & Hb & Hle).
  rewrite np_mean_nonempty by (rewrite py_slice_length; lia).
  eexists. split; [reflexivity|].
  rewrite py_slice_length by lia.
  apply Rmult_le_pos.
  - apply np_sum_nonneg. unfold py_slice.
    now apply Forall_firstn_of, Forall_skipn.
  - left. apply Rinv_0_lt_compat. apply lt_0_INR. lia.
Qed.

Lemma bands_nonnegative_witness :
  exists bands : list (option R),
    get_frequency_bands [1; 0; 3; 4; 5] 2 = Some bands
    /\ length bands = 2%nat
    /\ Forall (fun b => exists v : R, b = Some v /\ 0 <= v) bands.
Proof.
  apply bands_nonnegative.
  - simpl. lia.
  - repeat constructor; lra.
Defined.

(** ** Spectral analyzer *)

Lemma fft_abs_nonneg (x : list R) : Forall (fun v => 0 <= v) (fft_abs x).
Proof.
  unfold fft_abs. apply Forall_forall. intros v Hv.
  apply in_map_iff in Hv. destruct Hv as (k & <- & _).
  apply sqrt_pos.
Qed.

(** A non-empty frame always yields a spectrum: it has [CHUNK // 2 = 1024]
    values (fewer only if the frame itself is shorter), none of them
    negative; for a frame of [CHUNK] samples the length is exactly 1024. *)
Theorem compressed_spectrum_shape (data : list Z) :
  data <> [] ->
  exists s : list R,
    compressed_spectrum data = Some s
    /\ length s = Nat.min 1024 (length data)
    /\ (length data = Z.to_nat CHUNK -> length s = 1024%nat)
    /\ Forall (fun v => 0 <= v) s.
Proof.
  intros H.
  destruct (compressed_spectrum_length data H) as (s & Hs & Hl).
  exists s. split; [exact Hs|]. split; [exact Hl|]. split.
  - intros E. rewrite Hl, E. reflexivity.
  - rewrite compressed_spectrum_nonempty in Hs by exact H.
    injection Hs as <-.
    apply Forall_forall. intros v Hv.
    apply in_map_iff in Hv. destruct Hv as (m & <- & Hm).
    apply in_map_iff in Hm. destruct Hm as (a & <- & Ha).
    apply log_compress_nonneg.
    assert (0 <= a).
    { pose proof (fft_abs_nonneg (np_mul (map IZR data) (hamming (length data)))) as F.
      apply Forall_firstn_of with (n := Z.to_nat (CHUNK / 2)) in F.
      rewrite Forall_forall in F. now apply F. }
    unfold CHUNK. apply Rmult_le_pos; [assumption|].
    left. apply Rinv_0_lt_compat. lra.
Qed.

Lemma compressed_spectrum_shape_witness :
  exists s : list R,
    compressed_spectrum [5%Z; (-3)%Z; 7%Z] = Some s
    /\ length s = 3%nat
    /\ Forall (fun v => 0 <= v) s.
Proof.
  destruct (compressed_spectrum_shape [5%Z; (-3)%Z; 7%Z]) as (s & A & B & _ & D).
  - discriminate.
  - exists s. split; [exact A|]. split; [exact B | exact D].
Defined.

Lemma deque_append_last {A : Type} (m : nat) (d : list A) (x : A) :
  (1 <= m)%nat -> In x (deque_append m d x).
Proof.
  intros Hm. rewrite deque_append_snoc by exact Hm.
  apply in_or_app. right. now left.
Qed.

Lemma mean_axis0_none (rows : list (list R)) (s : list R) :
  In s rows ->
  (mean_axis0 rows = None
   <-> exists r : list R, In r rows /\ length r <> length s).
Proof.
  intros Hs. destruct rows as [|r0 rows]; [contradiction|].
  unfold mean_axis0.
  destruct (forallb (fun r' => Nat.eqb (length r') (length r0)) (r0 :: rows)) eqn:E.
  - split; [discriminate|].
    intros (r & Hr & Hne). exfalso. apply Hne.
    rewrite forallb_forall in E.
    pose proof (E r Hr) as E1. pose proof (E s Hs) as E2.
    apply Nat.eqb_eq in E1. apply Nat.eqb_eq in E2. congruence.
  - split; [intros _|reflexivity].
    destruct (forallb (fun r' => Nat.eqb (length r') (length s)) (r0 :: rows)) eqn:F.
    + exfalso. rewrite forallb_forall in F.
      assert (E0 : length r0 = length s).
      { apply Nat.eqb_eq, F. now left. }
      assert (T : forallb (fun r' => Nat.eqb (length r') (length r0)) (r0 :: rows) = true).
      { apply forallb_forall. intros r Hr. rewrite E0. now apply F. }
      congruence.
    + assert (N : ~ (forall r, In r (r0 :: rows) ->
                       Nat.eqb (length r) (length s) = true)).
      { intros G. apply forallb_forall in G. congruence. }
      clear E F Hs. induction (r0 :: rows) as [|r l IH].
      * exfalso. apply N. intros r [].
      * destruct (Nat.eqb (length r) (length s)) eqn:Er.
        -- destruct IH as (r' & Hr' & Hne).
           ++ intros G. apply N. intros r1 [<-|H1]; [exact Er | now apply G].
           ++ exists r'. split; [now right | exact Hne].
        -- exists r. split; [now left|]. now apply Nat.eqb_neq.
Qed.

(** [analyze_audio] raises in two cases only: the frame is empty, or the
    spectra the deque then holds do not all have the length of the new
    one. *)
Theorem analyze_audio_failure (self : AudioVisualizer) (data : list Z) :
  analyze_audio self data = None
  <-> data = []
      \/ exists s r : list R,
           compressed_spectrum data = Some s
           /\ In r (deque_append 3 (freq_smooth self) s)
           /\ length r <> length s.
Proof.
  unfold analyze_audio.
  destruct data as [|a data].
  - split; [now left | reflexivity].
  - destruct (compressed_spectrum_length (a :: data) ltac:(discriminate)) as (s & Hs & _).
    rewrite Hs.
    change (freq_smooth (set_freq_smooth ?v _)) with v.
    pose proof (mean_axis0_none (deque_append 3 (freq_smooth self) s) s
                  (deque_append_last 3 _ s ltac:(lia))) as M.
    destruct (mean_axis0 (deque_append 3 (freq_smooth self) s)) eqn:E.
    + split; [discriminate|].
      intros [D|(s' & r & Hs' & Hr & Hne)]; [discriminate|].
      assert (s' = s) by congruence. subst s'.
      destruct M as [_ M]. discriminate M. now exists r.
    + split; [|reflexivity]. intros _. right.
      destruct M as [M _]. destruct (M eq_refl) as (r & Hr & Hne).
      now exists s, r.
Qed.

(** Once three spectra are held the window slides: the call drops the
    oldest one, and the result is the element-wise mean of the two newest
    and the new spectrum. *)
Theorem smoothing_window_slides (self : AudioVisualizer) (data : list Z)
  (a b c : list R) :
  data <> [] ->
  freq_smooth self = [a; b; c] ->
  length b = Nat.min 1024 (length data) ->
  length c = Nat.min 1024 (length data) ->
  exists (s sm : list R) (self' : AudioVisualizer),
    compressed_spectrum data = Some s
    /\ analyze_audio self data = Some (sm, self')
    /\ freq_smooth self' = [b; c; s]
    /\ length sm = length s
    /\ (forall j : nat, (j < length s)%nat ->
          nth j sm 0 = (nth j b 0 + nth j c 0 + nth j s 0) / 3).
Proof.
  intros Hd Hf Hb Hc.
  destruct (compressed_spectrum_length data Hd) as (s & Hs & Hl).
  change (Z.to_nat (CHUNK / 2)) with 1024%nat in Hl.
  exists s. eexists. exists (set_freq_smooth [b; c; s] self).
  split; [exact Hs|]. split.
  { unfold analyze_audio. rewrite Hs, Hf.
    change (freq_smooth (set_freq_smooth ?v _)) with v.
    change (deque_append 3 [a; b; c] s) with [b; c; s].
    rewrite mean_axis0_spec
      by (constructor; [congruence | constructor; [congruence | constructor]]).
    reflexivity. }
  split; [reflexivity|].
  split; [rewrite length_map, length_seq; congruence|].
  intros j Hj. rewrite nth_map_seq by congruence. simpl. field.
Qed.

Lemma smoothing_window_slides_witness :
  exists (s sm : list R) (self' : AudioVisualizer),
    analyze_audio (set_freq_smooth [[9]; [1]; [2]] (init 1600 900)) [4%Z]
    = Some (sm, self')
    /\ freq_smooth self' = [[1]; [2]; s].
Proof.
  destruct (smoothing_window_slides
              (set_freq_smooth [[9]; [1]; [2]] (init 1600 900)) [4%Z] [9] [1] [2])
    as (s & sm & self' & _ & A & B & _); try reflexivity.
  - discriminate.
  - exists s, sm, self'. split; assumption.
Defined.

(** ** Particle system *)

Lemma update_spec_alive (ps : list Particle) :
  Forall (fun p => (0 < life p)%Z) (update_spec ps).
Proof.
  unfold update_spec. apply Forall_forall. intros p Hp.
  apply filter_In in Hp. destruct Hp as [_ Hp]. now apply Z.ltb_lt.
Qed.

(** The update loop never raises: [remove] always finds the particle it is
    given, and it is that particle which goes.  The list that results is the
    stepped particles whose life is still positive, in their order, so it is
    never longer than before and holds no dead particle. *)
Theorem update_particles_total (ps : list Particle) :
  update_particles ps
  = Some (filter (fun p => (0 <? life p)%Z) (map particle_step ps))
  /\ (forall ps' : list Particle,
        update_particles ps = Some ps' ->
        Forall (fun p => (0 < life p)%Z) ps'
        /\ (length ps' <= length ps)%nat).
Proof.
  split; [apply update_particles_spec|].
  intros ps' H. rewrite update_particles_spec in H. injection H as <-.
  split; [apply update_spec_alive | apply update_spec_length].
Qed.

(** What [k] steps of a particle do and never do: the horizontal velocity
    and the hue are those of the start, the life is [k] less, and gravity
    never lets the vertical velocity drop below its starting value. *)
Theorem particle_steps_keep (k : nat) (p : Particle) :
  vx (Nat.iter k particle_step p) = vx p
  /\ phue (Nat.iter k particle_step p) = phue p
  /\ life (Nat.iter k particle_step p) = (life p - Z.of_nat k)%Z
  /\ vy p <= vy (Nat.iter k particle_step p).
Proof.
  induction k as [|k (Hvx & Hh & Hl & Hvy)].
  - simpl. repeat split; try lra. lia.
  - rewrite Nat.iter_succ.
    set (q := Nat.iter k particle_step p) in *.
    unfold particle_step. cbn [vx vy life phue].
    split; [exact Hvx|]. split; [exact Hh|]. split; [lia | lra].
Qed.

(** ** Mode 3: waveform *)

(** A canvas wider than the frame is fatal: the step is 0 and [range]
    raises. *)
Theorem waveform_wide_canvas_raises (self : AudioVisualizer) (audio_data : list Z) :
  (Z.of_nat (length audio_data) < WIDTH self)%Z ->
  draw_mode_3_waveform self audio_data = None.
Proof.
  intros H. unfold draw_mode_3_waveform.
  destruct (WIDTH self =? 0)%Z; [reflexivity|].
  rewrite Z.div_small by lia. reflexivity.
Qed.

Lemma waveform_wide_canvas_raises_witness :
  draw_mode_3_waveform (init 4096 900) (repeat 0%Z 2048) = None.
Proof.
  apply waveform_wide_canvas_raises. rewrite repeat_length. simpl. lia.
Defined.

Lemma ceil_div_bounds (len wd : nat) :
  (1 <= wd <= len)%nat ->
  (1 <= len / wd
   /\ wd <= (len + len / wd - 1) / (len / wd)
   /\ (len = wd * (len / wd) -> (len + len / wd - 1) / (len / wd) = wd))%nat.
Proof.
  intros H.
  assert (H1 : (1 <= len / wd)%nat) by (apply Nat.div_le_lower_bound; lia).
  assert (H2 : (wd * (len / wd) <= len)%nat) by apply Nat.Div0.mul_div_le.
  split; [exact H1|]. split.
  - apply Nat.div_le_lower_bound; [lia|]. nia.
  - intros E. set (st := (len / wd)%nat) in *.
    symmetry. apply Nat.div_unique with (r := (st - 1)%nat); [lia|]. nia.
Qed.

(** The points of the polyline: with [1 <= WIDTH <= len(audio)] the step is
    [len // WIDTH], the samples at the multiples of the step are kept, and
    point [k] has [x = k].  There are [ceil(len / step)] points, never
    fewer than [WIDTH] and exactly [WIDTH] when the width times the step
    is the frame length. *)
Theorem waveform_points (self : AudioVisualizer) (audio_data : list Z) (wd : nat) :
  WIDTH self = Z.of_nat wd ->
  (1 <= wd <= length audio_data)%nat ->
  let st := (length audio_data / wd)%nat in
  let n := ((length audio_data + st - 1) / st)%nat in
  draw_mode_3_waveform self audio_data
  = Some (map (fun k =>
                 (Z.of_nat k,
                  (HEIGHT self / 2
                   + Z.quot (nth (k * st) audio_data 0 * (HEIGHT self / 3)) 32768)%Z))
              (seq 0 n))
  /\ (wd <= n)%nat
  /\ (length audio_data = (wd * st)%nat -> n = wd).
Proof.
  intros Hw Hwd st n.
  destruct (ceil_div_bounds (length audio_data) wd Hwd) as (S1 & S2 & S3).
  fold st in S1, S2, S3. fold n in S2, S3.
  split; [|split; [exact S2 | exact S3]].
  unfold draw_mode_3_waveform. rewrite Hw.
  assert (E0 : (Z.of_nat wd =? 0)%Z = false) by (apply Z.eqb_neq; lia).
  assert (Est : (Z.of_nat (length audio_data) / Z.of_nat wd)%Z = Z.of_nat st).
  { unfold st. now rewrite Nat2Z.inj_div. }
  rewrite E0, Est.
  assert (E1 : (Z.of_nat st =? 0)%Z = false) by (apply Z.eqb_neq; lia).
  assert (E2 : (Z.of_nat st <? 0)%Z = false) by (apply Z.ltb_ge; lia).
  rewrite E1, E2, Nat2Z.id. f_equal.
  unfold py_range_step. fold n. rewrite map_map.
  apply map_ext. intros k.
  rewrite Nat2Z.inj_mul, Z.div_mul by lia. reflexivity.
Qed.

Lemma waveform_points_witness :
  exists points : list (Z * Z),
    draw_mode_3_waveform (init 4 900) [10%Z; 20%Z; 30%Z; 40%Z; 50%Z; 60%Z; 70%Z; 80%Z]
    = Some points
    /\ length points = 4%nat.
Proof.
  destruct (waveform_points (init 4 900)
              [10%Z; 20%Z; 30%Z; 40%Z; 50%Z; 60%Z; 70%Z; 80%Z] 4) as (A & _ & _).
  - reflexivity.
  - simpl. lia.
  - eexists. split; [exact A|]. reflexivity.
Defined.

Lemma quot_scaled_bound (a h3 : Z) :
  (-32768 <= a <= 32767)%Z -> (0 <= h3)%Z ->
  (- h3 <= Z.quot (a * h3) 32768 <= h3)%Z.
Proof.
  intros Ha Hh. split.
  - rewrite <- (Z.quot_mul (- h3) 32768) by lia.
    apply Z.quot_le_mono; nia.
  - rewrite <- (Z.quot_mul h3 32768) at 2 by lia.
    apply Z.quot_le_mono; nia.
Qed.

(** For int16 samples and a non-negative height every point of the
    polyline lies within a third of the height of the middle line. *)
Theorem waveform_height_bound (self : AudioVisualizer) (audio_data : list Z)
  (points : list (Z * Z)) :
  (0 <= HEIGHT self)%Z ->
  Forall (fun a => (-32768 <= a <= 32767)%Z) audio_data ->
  draw_mode_3_waveform self audio_data = Some points ->
  Forall (fun xy => (HEIGHT self / 2 - HEIGHT self / 3 <= snd xy
                     <= HEIGHT self / 2 + HEIGHT self / 3)%Z) points.
Proof.
  intros Hh Hall. unfold draw_mode_3_waveform.
  destruct (WIDTH self =? 0)%Z; [discriminate|].
  destruct (_ =? 0)%Z; [discriminate|].
  destruct (_ <? 0)%Z; intros [= <-]; [constructor|].
  apply Forall_forall. intros xy Hxy.
  apply in_map_iff in Hxy. destruct Hxy as (i & <- & _). cbn [snd].
  assert (Hs : (-32768 <= nth i audio_data 0 <= 32767)%Z).
  { destruct (Nat.lt_ge_cases i (length audio_data)) as [Hi|Hi].
    - rewrite Forall_forall in Hall. apply Hall. now apply nth_In.
    - rewrite nth_overflow by exact Hi. lia. }
  assert (H3 : (0 <= HEIGHT self / 3)%Z) by (apply Z.div_pos; lia).
  pose proof (quot_scaled_bound _ _ Hs H3). lia.
Qed.

Lemma waveform_height_bound_witness :
  Forall (fun xy => (900 / 2 - 900 / 3 <= snd xy <= 900 / 2 + 900 / 3)%Z)
         [(0%Z, (900 / 2 + Z.quot (32767 * (900 / 3)) 32768)%Z);
          (1%Z, (900 / 2 + Z.quot (-32768 * (900 / 3)) 32768)%Z)].
Proof.
  apply (waveform_height_bound (init 2 900) [32767%Z; (-32768)%Z]).
  - simpl. lia.
  - repeat constructor; lia.
  - reflexivity.
Defined.

(** ** Main loop: what every pass keeps *)

Lemma particles_ok_nil (cd : Z) : particles_ok cd [].
Proof.
  split; [constructor|]. split.
  - intros p q [].
  - intros L. unfold life_count. simpl. lia.
Qed.

Lemma in_update_spec (q : Particle) (ps : list Particle) :
  In q (update_spec ps) ->
  exists p : Particle, In p ps /\ q = particle_step p /\ (0 < life q)%Z.
Proof.
  unfold update_spec. intros H.
  apply filter_In in H. destruct H as [H1 H2].
  apply in_map_iff in H1. destruct H1 as (p & <- & Hp).
  exists p. repeat split; auto. now apply Z.ltb_lt.
Qed.

Lemma life_count_update (L : Z) (ps : list Particle) :
  (life_count L (update_spec ps) <= life_count (L + 1) ps)%nat.
Proof.
  unfold life_count, update_spec.
  induction ps as [|p ps IH]; [simpl; lia|].
  cbn [map filter]. rewrite life_particle_step.
  destruct (0 <? life p - 1)%Z; cbn [filter];
    destruct (life p =? L + 1)%Z eqn:E.
  - apply Z.eqb_eq in E. rewrite life_particle_step.
    assert (E' : (life p - 1 =? L)%Z = true) by (apply Z.eqb_eq; lia).
    rewrite E'. cbn [length]. lia.
  - apply Z.eqb_neq in E. rewrite life_particle_step.
    assert (E' : (life p - 1 =? L)%Z = false) by (apply Z.eqb_neq; lia).
    rewrite E'. exact IH.
  - cbn [length]. lia.
  - exact IH.
Qed.

Lemma life_count_app (L : Z) (a b : list Particle) :
  life_count L (a ++ b) = (life_count L a + life_count L b)%nat.
Proof.
  unfold life_count. now rewrite filter_app, length_app.
Qed.

Lemma life_count_absent (L : Z) (ps : list Particle) :
  Forall (fun p => life p <> L) ps -> life_count L ps = 0%nat.
Proof.
  unfold life_count. induction 1 as [|p ps Hp _ IH]; [reflexivity|].
  cbn [filter]. apply Z.eqb_neq in Hp. rewrite Hp. exact IH.
Qed.

Lemma life_count_le_length (L : Z) (ps : list Particle) :
  (life_count L ps <= length ps)%nat.
Proof. unfold life_count. apply filter_length_le. Qed.

(** One update under a cooldown that dropped by at most one. *)
Lemma particles_ok_update (cd cd' : Z) (ps : list Particle) :
  (cd - 1 <= cd')%Z ->
  particles_ok cd ps -> particles_ok cd' (update_spec ps).
Proof.
  intros Hcd (Hr & Hg & Hc). split; [|split].
  - apply Forall_forall. intros q Hq.
    destruct (in_update_spec q ps Hq) as (p & Hp & -> & Hpos).
    rewrite Forall_forall in Hr. specialize (Hr p Hp).
    rewrite life_particle_step in *. lia.
  - intros q1 q2 H1 H2.
    destruct (in_update_spec q1 ps H1) as (p1 & Hp1 & -> & _).
    destruct (in_update_spec q2 ps H2) as (p2 & Hp2 & -> & _).
    rewrite !life_particle_step.
    destruct (Hg p1 p2 Hp1 Hp2) as [E|G]; [left; lia | right; lia].
  - intros L. etransitivity; [apply life_count_update | apply Hc].
Qed.

(** A beat: the survivors of the update, all of life at most 48, followed
    by the new group of life 59. *)
Lemma particles_ok_beat (old grp : list Particle) :
  particles_ok (-1) old ->
  Forall (fun p => life p = 59%Z) grp ->
  (length grp <= 32)%nat ->
  particles_ok 10 (old ++ grp).
Proof.
  intros (Hr & Hg & Hc) Hn Hl.
  rewrite Forall_forall in Hr, Hn.
  split; [|split].
  - apply Forall_forall. intros p Hp. apply in_app_or in Hp.
    destruct Hp as [Hp|Hp]; [specialize (Hr p Hp) | rewrite (Hn p Hp)]; lia.
  - intros p q Hp Hq.
    apply in_app_or in Hp. apply in_app_or in Hq.
    destruct Hp as [Hp|Hp], Hq as [Hq|Hq].
    + now apply Hg.
    + specialize (Hr p Hp). rewrite (Hn q Hq). right. lia.
    + specialize (Hr q Hq). rewrite (Hn p Hp). right. lia.
    + left. now rewrite (Hn p Hp), (Hn q Hq).
  - intros L. rewrite life_count_app.
    destruct (Z.eq_dec L 59) as [->|Hne].
    + rewrite (life_count_absent 59 old).
      * pose proof (life_count_le_length 59 grp). lia.
      * apply Forall_forall. intros p Hp. specialize (Hr p Hp). lia.
    + rewrite (life_count_absent L grp).
      * specialize (Hc L). lia.
      * apply Forall_forall. intros p Hp. rewrite (Hn p Hp). lia.
Qed.

(** Buckets of eleven consecutive lives. *)
Lemma filter_key_split {A : Type} (g : A -> nat) (k : nat) (l : list A) :
  length (filter (fun x => Nat.ltb (g x) (S k)) l)
  = (length (filter (fun x => Nat.ltb (g x) k) l)
     + length (filter (fun x => Nat.eqb (g x) k) l))%nat.
Proof.
  induction l as [|x l IH]; [reflexivity|].
  cbn [filter].
  destruct (Nat.ltb_spec (g x) (S k)), (Nat.ltb_spec (g x) k),
           (Nat.eqb_spec (g x) k); cbn [length]; lia.
Qed.

Lemma filter_length_mono {A : Type} (f g : A -> bool) (l : list A) :
  (forall x, In x l -> f x = true -> g x = true) ->
  (length (filter f l) <= length (filter g l))%nat.
Proof.
  induction l as [|x l IH]; intros H; [simpl; lia|].
  cbn [filter].
  assert (IH' : (length (filter f l) <= length (filter g l))%nat).
  { apply IH. intros y Hy. apply H. now right. }
  destruct (f x) eqn:Ef.
  - rewrite (H x (or_introl eq_refl) Ef). cbn [length]. lia.
  - destruct (g x); cbn [length]; lia.
Qed.

Lemma bucket_at_most_32 (cd : Z) (ps : list Particle) (j : nat) :
  particles_ok cd ps ->
  (length (filter (fun p => Nat.eqb (Z.to_nat ((life p - 1) / 11)) j) ps) <= 32)%nat.
Proof.
  intros (Hr & Hg & Hc).
  destruct (filter (fun p => Nat.eqb (Z.to_nat ((life p - 1) / 11)) j) ps)
    as [|p0 rest] eqn:E; [simpl; lia|].
  rewrite <- E.
  assert (H0 : In p0 (filter (fun p => Nat.eqb (Z.to_nat ((life p - 1) / 11)) j) ps)).
  { rewrite E. now left. }
  apply filter_In in H0. destruct H0 as [Hin0 Hb0]. apply Nat.eqb_eq in Hb0.
  etransitivity; [|apply (Hc (life p0))].
  unfold life_count. apply filter_length_mono.
  intros p Hp Hb. apply Nat.eqb_eq in Hb. apply Z.eqb_eq.
  rewrite Forall_forall in Hr.
  pose proof (Hr p Hp) as R1. pose proof (Hr p0 Hin0) as R0.
  assert (Q : ((life p - 1) / 11 = (life p0 - 1) / 11)%Z).
  { apply Z2Nat.inj; try (apply Z.div_pos; lia). congruence. }
  destruct (Hg p p0 Hp Hin0) as [Eq|G]; [exact Eq|].
  exfalso.
  pose proof (Z.div_mod (life p - 1) 11 ltac:(lia)) as D1.
  pose proof (Z.div_mod (life p0 - 1) 11 ltac:(lia)) as D0.
  pose proof (Z.mod_pos_bound (life p - 1) 11 ltac:(lia)).
  pose proof (Z.mod_pos_bound (life p0 - 1) 11 ltac:(lia)).
  rewrite Q in D1. lia.
Qed.

Lemma buckets_below (cd : Z) (ps : list Particle) (k : nat) :
  particles_ok cd ps ->
  (length (filter (fun p => Nat.ltb (Z.to_nat ((life p - 1) / 11)) k) ps)
   <= 32 * k)%nat.
Proof.
  intros H. induction k as [|k IH].
  - change (filter (fun p => Nat.ltb (Z.to_nat ((life p - 1) / 11)) 0) ps)
      with (filter (fun _ : Particle => false) ps).
    rewrite filter_false. simpl. lia.
  - rewrite filter_key_split.
    pose proof (bucket_at_most_32 cd ps k H). lia.
Qed.

Lemma particles_ok_length (cd : Z) (ps : list Particle) :
  (cd <= 10)%Z -> particles_ok cd ps -> (length ps <= 192)%nat.
Proof.
  intros Hcd H.
  pose proof (buckets_below cd ps 6 H) as B.
  rewrite forallb_filter_id in B; [exact B|].
  apply forallb_forall. intros p Hp.
  destruct H as (Hr & _). rewrite Forall_forall in Hr. specialize (Hr p Hp).
  apply Nat.ltb_lt.
  assert (((life p - 1) / 11 < 6)%Z) by (apply Z.div_lt_upper_bound; lia).
  assert ((0 <= (life p - 1) / 11)%Z) by (apply Z.div_pos; lia).
  lia.
Qed.

Lemma run_inv_init (w h : Z) : run_inv (init w h).
Proof.
  unfold run_inv. simpl.
  split; [lia|]. split; [lia|]. split; [lra|]. split; [lia|]. split; [lia|].
  split; [reflexivity|]. split; [apply particles_ok_nil | constructor].
Qed.

Lemma handle_event_inv (rs : bool * AudioVisualizer) (ev : Event) :
  run_inv (snd rs) -> run_inv (snd (handle_event rs ev)).
Proof.
  destruct rs as [running self]. cbn [snd]. intros H.
  destruct ev as [|key|]; cbn [handle_event]; auto.
  destruct (key =? K_ESCAPE)%Z; [exact H|].
  destruct (key =? K_SPACE)%Z; [exact H|].
  destruct ((K_1 <=? key) && (key <=? K_5))%Z eqn:E; [|exact H].
  apply andb_true_iff in E. destruct E as [E1 E2].
  apply Z.leb_le in E1. apply Z.leb_le in E2. unfold K_1, K_5 in *.
  destruct H as (H1 & H2 & H3 & H4 & H5 & H6 & H7 & H8).
  unfold run_inv. simpl. unfold K_0.
  split; [lia|]. split; [lia|]. split; [lra|]. split; [lia|]. split; [lia|].
  split; [reflexivity|]. split; [apply particles_ok_nil | constructor].
Qed.

Lemma handle_events_inv (events : list Event) :
  forall rs : bool * AudioVisualizer,
    run_inv (snd rs) -> run_inv (snd (handle_events rs events)).
Proof.
  induction events as [|ev events IH]; intros rs H; simpl.
  - exact H.
  - apply IH. now apply handle_event_inv.
Qed.

Lemma analyze_audio_frame (self s1 : AudioVisualizer) (data : list Z) (fft : list R) :
  analyze_audio self data = Some (fft, s1) ->
  exists s : list R,
    s1 = set_freq_smooth (deque_append 3 (freq_smooth self) s) self.
Proof.
  unfold analyze_audio.
  destruct (compressed_spectrum data) as [s|]; [|discriminate].
  destruct (mean_axis0 _); [|discriminate].
  intros [= _ <-]. now exists s.
Qed.

Lemma detect_beat_frame (self : AudioVisualizer) (fft : list R) :
  snd (detect_beat self fft)
  = set_beat_cooldown (beat_cooldown (snd (detect_beat self fft)))
      (set_beat_history (deque_append 20 (beat_history self) (bass_energy fft)) self).
Proof.
  unfold detect_beat. cbv zeta.
  destruct (0 <? _)%Z; [reflexivity|].
  destruct (gt_opt _ _); [reflexivity|].
  now destruct self.
Qed.

Lemma in_spawn_from_bands (self : AudioVisualizer) (bands : list (option R))
  (p : Particle) :
  In p (spawn_from_bands self bands) ->
  exists (i : nat) (m : R), p = new_particle self i (length bands) m.
Proof.
  unfold spawn_from_bands. intros H.
  apply in_flat_map in H. destruct H as ([i [m|]] & _ & H); cbn [fst snd] in H.
  - destruct (Rgtb m 5); [|contradiction].
    destruct H as [<-|[]]. now exists i, m.
  - contradiction.
Qed.

Lemma update_spec_fresh (grp : list Particle) :
  Forall (fun p => life p = 60%Z) grp ->
  update_spec grp = map particle_step grp.
Proof.
  unfold update_spec. induction 1 as [|p grp Hp _ IH]; [reflexivity|].
  cbn [map filter]. rewrite life_particle_step, Hp.
  change (0 <? 60 - 1)%Z with true. now rewrite IH.
Qed.

(** What one call of the mode-5 builder makes of the particle list. *)
Lemma draw_mode_5_cases (self self' : AudioVisualizer) (fft : list R) :
  draw_mode_5_particles self fft = Some self' ->
  exists grp : list Particle,
    self' = set_particles (update_spec (particles self) ++ grp) self
    /\ (beat_detected self = false -> grp = [])
    /\ (length grp <= 32)%nat
    /\ Forall (fun p => life p = 59%Z /\ 0 <= phue p < 1) grp.
Proof.
  unfold draw_mode_5_particles, spawn_particles.
  destruct (beat_detected self) eqn:B.
  - assert (Hb : exists bands, get_frequency_bands fft 32 = Some bands
                               /\ length bands = 32%nat).
    { eexists. split; [reflexivity|]. now rewrite length_map, length_seq. }
    destruct Hb as (bands & Hb & Hlen). rewrite Hb.
    rewrite update_particles_spec. cbn [option_map]. intros [= <-].
    destruct (spawn_from_bands_spec self bands) as [L F].
    assert (F60 : Forall (fun p => life p = 60%Z) (spawn_from_bands self bands)).
    { eapply Forall_impl; [|exact F]. intros p (_ & _ & H). exact H. }
    exists (map particle_step (spawn_from_bands self bands)).
    split; [|split; [discriminate|split]].
    + simpl particles. rewrite update_spec_app, (update_spec_fresh _ F60).
      reflexivity.
    + rewrite length_map, L, <- Hlen. apply filter_length_le.
    + apply Forall_forall. intros q Hq.
      apply in_map_iff in Hq. destruct Hq as (p & <- & Hp).
      rewrite Forall_forall in F60. rewrite life_particle_step, (F60 p Hp).
      split; [reflexivity|].
      destruct (in_spawn_from_bands self bands p Hp) as (i & m & ->).
      cbn [particle_step phue new_particle]. unfold py_mod1.
      pose proof (base_fp (hue self + INR i / INR (length bands))). lra.
  - rewrite update_particles_spec. cbn [option_map]. intros [= <-].
    exists []. rewrite app_nil_r.
    split; [reflexivity|]. split; [reflexivity|].
    split; [simpl; lia | constructor].
Qed.

Lemma update_spec_hue (ps : list Particle) :
  Forall (fun p => 0 <= phue p < 1) ps ->
  Forall (fun p => 0 <= phue p < 1) (update_spec ps).
Proof.
  intros H. apply Forall_forall. intros q Hq.
  destruct (in_update_spec q ps Hq) as (p & Hp & -> & _).
  rewrite Forall_forall in H. exact (H p Hp).
Qed.

Lemma run_inv_rebuild (self : AudioVisualizer) (hue' : R) (hist : list R)
  (b : bool) (cd' : Z) (smooth : list (list R)) (ps' : list Particle) :
  run_inv self ->
  (0 <= cd' <= 10)%Z ->
  0 <= hue' < 1 ->
  (length hist <= 20)%nat ->
  (length smooth <= 3)%nat ->
  (mode self <> 5%Z -> ps' = []) ->
  particles_ok cd' ps' ->
  Forall (fun p => 0 <= phue p < 1) ps' ->
  run_inv (mkViz (WIDTH self) (HEIGHT self) (mode self) (paused self) hue' hist
                 (beat_threshold self) b cd' smooth ps').
Proof.
  intros (_ & Hm & _) Hcd Hhue Hh Hs Hp Hok Hph.
  unfold run_inv. cbn [beat_cooldown mode hue beat_history freq_smooth particles].
  tauto.
Qed.

Lemma tick_inv (self self' : AudioVisualizer) (audio_data : list Z) :
  run_inv self -> tick self audio_data = Some self' -> run_inv self'.
Proof.
  intros Hinv. unfold tick.
  destruct (paused self); cbn [negb]; [now intros [= <-]|].
  destruct (analyze_audio self audio_data) as [[fft s1]|] eqn:A; [|discriminate].
  destruct (analyze_audio_frame self s1 audio_data fft A) as (s & ->).
  set (s1 := set_freq_smooth (deque_append 3 (freq_smooth self) s) self) in *.
  pose proof (detect_beat_frame s1 fft) as Fr.
  pose proof Hinv as (Hcd & Hmode & Hhue & Hhist & Hsm & Hempty & Hok & Hph).
  pose proof (detect_beat_cooldown_step s1 fft ltac:(simpl; lia)) as St.
  destruct (detect_beat s1 fft) as [b s2]. cbn [fst snd] in Fr, St.
  change (beat_cooldown s1) with (beat_cooldown self) in St.
  set (cd' := beat_cooldown s2) in *.
  set (hue' := py_mod1 (hue (set_beat_detected b s2) + 2 / 1000)).
  assert (Hhue' : 0 <= hue' < 1).
  { unfold hue', py_mod1.
    pose proof (base_fp (hue (set_beat_detected b s2) + 2 / 1000)). lra. }
  assert (Hcd' : (0 <= cd' <= 10)%Z) by lia.
  set (hist := deque_append 20 (beat_history s1) (bass_energy fft)) in *.
  assert (Hhist' : (length hist <= 20)%nat).
  { unfold hist. rewrite deque_append_length. lia. }
  assert (Hsm' : (length (deque_append 3 (freq_smooth self) s) <= 3)%nat).
  { rewrite deque_append_length. lia. }
  assert (E4 : forall ps',
             set_particles ps' (set_hue hue' (set_beat_detected b s2))
             = mkViz (WIDTH self) (HEIGHT self) (mode self) (paused self) hue' hist
                     (beat_threshold self) b cd'
                     (deque_append 3 (freq_smooth self) s) ps').
  { intros ps'. rewrite Fr. reflexivity. }
  assert (E4' : set_hue hue' (set_beat_detected b s2)
                = set_particles (particles self)
                    (set_hue hue' (set_beat_detected b s2))).
  { rewrite Fr. reflexivity. }
  assert (Hm4 : mode (set_hue hue' (set_beat_detected b s2)) = mode self).
  { rewrite Fr. reflexivity. }
  assert (Hb4 : beat_detected (set_hue hue' (set_beat_detected b s2)) = b)
    by reflexivity.
  assert (Hp4 : particles (set_hue hue' (set_beat_detected b s2)) = particles self).
  { rewrite Fr. reflexivity. }
  assert (Keep : mode self <> 5%Z ->
                 run_inv (set_hue hue' (set_beat_detected b s2))).
  { intros Hne. rewrite E4', E4.
    apply run_inv_rebuild; auto.
    - rewrite (Hempty Hne). apply particles_ok_nil. }
  rewrite Hm4.
  destruct (mode self =? 1)%Z eqn:M1.
  { apply Z.eqb_eq in M1.
    destruct (draw_mode_1_circular _ _); cbn [option_map]; [|discriminate].
    intros [= <-]. apply Keep. lia. }
  destruct (mode self =? 2)%Z eqn:M2.
  { apply Z.eqb_eq in M2.
    destruct (draw_mode_2_spectrum _ _); cbn [option_map]; [|discriminate].
    intros [= <-]. apply Keep. lia. }
  destruct (mode self =? 3)%Z eqn:M3.
  { apply Z.eqb_eq in M3.
    destruct (draw_mode_3_waveform _ _); cbn [option_map]; [|discriminate].
    intros [= <-]. apply Keep. lia. }
  destruct (mode self =? 4)%Z eqn:M4.
  { apply Z.eqb_eq in M4.
    destruct (draw_mode_4_radial_wave _ _); cbn [option_map]; [|discriminate].
    intros [= <-]. apply Keep. lia. }
  destruct (mode self =? 5)%Z eqn:M5.
  2:{ intros [= <-]. apply Keep. now apply Z.eqb_neq in M5. }
  intros D5.
  destruct (draw_mode_5_cases _ _ _ D5) as (grp & -> & Hnone & Hlen & Hgrp).
  rewrite Hb4 in Hnone. rewrite Hp4, E4.
  assert (Hgrp59 : Forall (fun p => life p = 59%Z) grp).
  { eapply Forall_impl; [|exact Hgrp]. now intros p [H _]. }
  assert (Hgrph : Forall (fun p => 0 <= phue p < 1) grp).
  { eapply Forall_impl; [|exact Hgrp]. now intros p [_ H]. }
  apply run_inv_rebuild; auto.
  - intros Hne. apply Z.eqb_eq in M5. contradiction.
  - destruct St as [(C0 & Hb & C1)|[(C0 & Hb & C1)|(C0 & Hb & C1)]].
    + rewrite (Hnone Hb), app_nil_r.
      apply (particles_ok_update (beat_cooldown self)); [lia | exact Hok].
    + rewrite C1. apply particles_ok_beat; auto.
      apply (particles_ok_update (beat_cooldown self)); [lia | exact Hok].
    + rewrite (Hnone Hb), app_nil_r.
      apply (particles_ok_update (beat_cooldown self)); [lia | exact Hok].
  - apply Forall_app. split; [now apply update_spec_hue | exact Hgrph].
Qed.

Lemma run_iteration_inv (rs rs' : bool * AudioVisualizer)
  (input : list Event * list Z) :
  run_inv (snd rs) -> run_iteration rs input = Some rs' -> run_inv (snd rs').
Proof.
  intros H. unfold run_iteration.
  pose proof (handle_events_inv (fst input) rs H) as H1.
  destruct (handle_events rs (fst input)) as [running self]. cbn [snd] in H1.
  destruct (tick self (snd input)) as [self'|] eqn:T; cbn [option_map]; [|discriminate].
  intros [= <-]. cbn [snd]. exact (tick_inv self self' (snd input) H1 T).
Qed.

Lemma run_loop_inv (inputs : list (list Event * list Z)) :
  forall self self' : AudioVisualizer,
    run_inv self -> run_loop self inputs = Some self' -> run_inv self'.
Proof.
  induction inputs as [|input rest IH]; intros self self' H.
  - now intros [= <-].
  - cbn [run_loop].
    destruct (run_iteration (true, self) input) as [[running s1]|] eqn:E;
      [|discriminate].
    pose proof (run_iteration_inv (true, self) (running, s1) input H E) as H1.
    cbn [snd] in H1.
    destruct running; [now apply IH | now intros [= <-]].
Qed.

(** The particle list never grows without bound: whatever the events and
    the audio, after any number of passes of the loop from the initial
    state it holds at most 192 particles (beats are at least 11 ticks
    apart, a particle lives 59 ticks after the one that spawned it, each
    beat spawns at most 32), every one of them with a life between 1 and 59
    and a hue in [0, 1); outside mode 5 the list is empty. *)
Theorem particle_count_bounded (w h : Z) (inputs : list (list Event * list Z))
  (self : AudioVisualizer) :
  run_loop (init w h) inputs = Some self ->
  (length (particles self) <= 192)%nat
  /\ Forall (fun p => (1 <= life p <= 59)%Z /\ 0 <= phue p < 1) (particles self)
  /\ (mode self <> 5%Z -> particles self = []).
Proof.
  intros H.
  pose proof (run_loop_inv inputs (init w h) self (run_inv_init w h) H)
    as (Hcd & _ & _ & _ & _ & Hempty & Hok & Hph).
  split; [apply (particles_ok_length (beat_cooldown self)); [lia | exact Hok]|].
  split; [|exact Hempty].
  destruct Hok as (Hr & _).
  rewrite Forall_forall in *. intros p Hp.
  specialize (Hr p Hp). specialize (Hph p Hp). split; [lia | exact Hph].
Qed.

(** After any number of passes from the initial state the mode is one of
    the five, the hue lies in [0, 1), the cooldown between 0 and 10, and
    the two histories hold at most 20 energies and 3 spectra. *)
Theorem loop_state_ranges (w h : Z) (inputs : list (list Event * list Z))
  (self : AudioVisualizer) :
  run_loop (init w h) inputs = Some self ->
  (1 <= mode self <= 5)%Z
  /\ 0 <= hue self < 1
  /\ (0 <= beat_cooldown self <= 10)%Z
  /\ (length (beat_history self) <= 20)%nat
  /\ (length (freq_smooth self) <= 3)%nat.
Proof.
  intros H.
  pose proof (run_loop_inv inputs (init w h) self (run_inv_init w h) H)
    as (Hcd & Hm & Hh & Hb & Hs & _).
  tauto.
Qed.

Lemma handle_events_running (events : list Event) :
  forall (running : bool) (self : AudioVisualizer),
    fst (handle_events (running, self) events)
    = running && negb (existsb is_quit events).
Proof.
  induction events as [|ev events IH]; intros running self.
  - simpl. now rewrite andb_true_r.
  - cbn [handle_events fold_left existsb].
    destruct ev as [|key|]; cbn [handle_event is_quit].
    + fold (handle_events (false, self) events). rewrite IH.
      simpl. now rewrite andb_false_r.
    + destruct (key =? K_ESCAPE)%Z.
      * fold (handle_events (false, self) events). rewrite IH.
        simpl. now rewrite andb_false_r.
      * destruct (key =? K_SPACE)%Z;
          [|destruct ((K_1 <=? key) && (key <=? K_5))%Z];
          match goal with
          | |- fst (fold_left handle_event events (running, ?s)) = _ =>
              fold (handle_events (running, s) events); now rewrite IH
          end.
    + fold (handle_events (running, self) events). now rewrite IH.
Qed.

(** [running] is cleared by QUIT and by ESC and by nothing else, and no
    event sets it again.  The pass that saw the quit still handles the rest
    of its events and runs its tick; the loop then ends, and later input is
    never looked at. *)
Theorem quit_ends_loop_after_pass (self : AudioVisualizer)
  (input : list Event * list Z) (rest : list (list Event * list Z)) :
  (forall running : bool,
      fst (handle_events (running, self) (fst input))
      = running && negb (existsb is_quit (fst input)))
  /\ (existsb is_quit (fst input) = true ->
      run_loop self (input :: rest)
      = tick (snd (handle_events (true, self) (fst input))) (snd input)).
Proof.
  split; [intros running; apply handle_events_running|].
  intros Hq. cbn [run_loop]. unfold run_iteration.
  pose proof (handle_events_running (fst input) true self) as Hr.
  rewrite Hq in Hr. cbn [negb andb] in Hr.
  destruct (handle_events (true, self) (fst input)) as [running s1].
  cbn [fst snd] in *. subst running.
  destruct (tick s1 (snd input)); reflexivity.
Qed.

Lemma quit_ends_loop_after_pass_witness :
  run_loop (init 1600 900)
    [([KEYDOWN K_SPACE; QUIT; KEYDOWN 52], [1%Z]); ([KEYDOWN 51], [2%Z])]
  = Some (set_paused true (set_mode 4 (init 1600 900))).
Proof.
  rewrite (proj2 (quit_ends_loop_after_pass (init 1600 900)
                    ([KEYDOWN K_SPACE; QUIT; KEYDOWN 52], [1%Z])
                    [([KEYDOWN 51], [2%Z])])).
  - reflexivity.
  - reflexivity.
Defined.

(** ** Drawing *)

Lemma py_int_floor (r : R) :
  0 <= r -> IZR (py_int r) <= r < IZR (py_int r) + 1.
Proof.
  intros H. unfold py_int. destruct (Rle_dec 0 r); [|contradiction].
  pose proof (base_Int_part r). lra.
Qed.

Lemma py_int_range (r : R) (n : Z) :
  0 <= r <= IZR n -> (0 <= py_int r <= n)%Z.
Proof.
  intros [H0 Hn]. pose proof (py_int_floor r H0) as [A B].
  split.
  - assert (-1 < py_int r)%Z; [|lia].
    apply lt_IZR. lra.
  - apply le_IZR. lra.
Qed.

Lemma py_int_below (r : R) (n : Z) :
  0 <= r < IZR n -> (0 <= py_int r < n)%Z.
Proof.
  intros [H0 Hn]. pose proof (py_int_floor r H0) as [A B].
  split.
  - assert (-1 < py_int r)%Z; [|lia].
    apply lt_IZR. lra.
  - apply lt_IZR. lra.
Qed.

Lemma py_int_symmetric (r : R) (n : Z) :
  - IZR n <= r <= IZR n -> (- n <= py_int r <= n)%Z.
Proof.
  intros [Hl Hu]. destruct (Rle_dec 0 r) as [Hp|Hn].
  - pose proof (py_int_range r n (conj Hp Hu)). lia.
  - unfold py_int. destruct (Rle_dec 0 r); [contradiction|].
    assert (Hr : 0 <= - r <= IZR n) by lra.
    pose proof (py_int_range (- r) n Hr) as P.
    unfold py_int in P. destruct (Rle_dec 0 (- r)); [lia | lra].
Qed.

Lemma py_int_nonpos (r : R) : r <= 0 -> (py_int r <= 0)%Z.
Proof.
  intros H. destruct (Req_dec r 0) as [->|Hne].
  - pose proof (py_int_range 0 0 ltac:(simpl; lra)). lia.
  - unfold py_int. destruct (Rle_dec 0 r); [lra|].
    pose proof (base_Int_part (- r)) as [A B].
    assert (-1 < Int_part (- r))%Z by (apply lt_IZR; lra). lia.
Qed.

Lemma channel_range (c : R) : 0 <= c <= 1 -> (0 <= py_int (c * 255) <= 255)%Z.
Proof.
  intros H. apply py_int_range. lra.
Qed.

(** Hue, saturation and value in range give three channels in range. *)
Lemma hsv_to_rgb_range (h s v : R) :
  0 <= h -> 0 <= s <= 1 -> 0 <= v <= 1 ->
  let '(r, g, b) := hsv_to_rgb h s v in
  0 <= r <= 1 /\ 0 <= g <= 1 /\ 0 <= b <= 1.
Proof.
  intros Hh Hs Hv. unfold hsv_to_rgb.
  destruct (Req_dec_T s 0); [lra|].
  assert (H6 : 0 <= h * 6) by lra.
  pose proof (py_int_floor (h * 6) H6) as F.
  set (f := h * 6 - IZR (py_int (h * 6))).
  assert (Hf : 0 <= f < 1) by (unfold f; lra).
  assert (Hsf : 0 <= s * f <= 1) by nra.
  assert (Hsg : 0 <= s * (1 - f) <= 1) by nra.
  assert (P : 0 <= v * (1 - s) <= 1) by nra.
  assert (Q : 0 <= v * (1 - s * f) <= 1) by nra.
  assert (T : 0 <= v * (1 - s * (1 - f)) <= 1) by nra.
  repeat match goal with |- context [if ?b then _ else _] => destruct b end;
    lra.
Qed.

Lemma hsv_color_valid (h s v : R) :
  0 <= h -> 0 <= s <= 1 -> 0 <= v <= 1 ->
  valid_color (rgb255 (hsv_to_rgb h s v)).
Proof.
  intros Hh Hs Hv. pose proof (hsv_to_rgb_range h s v Hh Hs Hv) as H.
  destruct (hsv_to_rgb h s v) as [[r g] b]. destruct H as (A & B & C).
  unfold rgb255, valid_color. auto using channel_range.
Qed.

Lemma fade_valid (c : Z * Z * Z) (alpha : R) :
  valid_color c -> 0 <= alpha <= 1 -> valid_color (fade c alpha).
Proof.
  destruct c as [[r g] b]. unfold valid_color, fade.
  intros (Hr & Hg & Hb) Ha.
  assert (G : forall z : Z, (0 <= z <= 255)%Z ->
                            (0 <= py_int (IZR z * alpha) <= 255)%Z).
  { intros z [Z0 Z1]. apply IZR_le in Z0. apply IZR_le in Z1.
    apply py_int_range. nra. }
  auto.
Qed.

Lemma py_mod1_range (x : R) : 0 <= py_mod1 x < 1.
Proof. unfold py_mod1. pose proof (base_fp x). lra. Qed.

Lemma for_bands_ok {A : Type} (body : nat -> R -> A) (bands : list (option R)) :
  Forall (fun b => exists v : R, b = Some v) bands ->
  forall i : nat,
  exists l : list A, for_bands body i bands = Some l /\ length l = length bands.
Proof.
  induction 1 as [|b bands (v & ->) _ IH]; intros i.
  - exists []. split; reflexivity.
  - destruct (IH (S i)) as (l & E & L).
    exists (body i v :: l). cbn [for_bands]. rewrite E.
    split; [reflexivity|]. cbn [length]. now rewrite L.
Qed.

Lemma for_bands_Forall {A : Type} (P : A -> Prop) (body : nat -> R -> A)
  (bands : list (option R)) :
  forall (i : nat) (l : list A),
    (forall (k : nat) (m : R),
        (k < length bands)%nat -> nth_error bands k = Some (Some m) ->
        P (body (i + k)%nat m)) ->
    for_bands body i bands = Some l ->
    Forall P l.
Proof.
  induction bands as [|b bands IH]; intros i l H.
  - intros [= <-]. constructor.
  - cbn [for_bands]. destruct b as [m|]; [|discriminate].
    destruct (for_bands body (S i) bands) as [l'|] eqn:E; [|discriminate].
    cbn [option_map]. intros [= <-]. constructor.
    + replace i with (i + 0)%nat by lia. apply H; [simpl; lia | reflexivity].
    + apply (IH (S i) l'); [|exact E].
      intros k m' Hk Hn. replace (S i + k)%nat with (i + S k)%nat by lia.
      apply H; [simpl; lia | exact Hn].
Qed.

Lemma bands_defined (series : list R) (n : nat) :
  (1 <= n <= length series)%nat ->
  exists bands : list (option R),
    get_frequency_bands series n = Some bands
    /\ length bands = n
    /\ Forall (fun b => exists v : R, b = Some v) bands.
Proof.
  intros Hn. unfold get_frequency_bands.
  assert (E : Nat.eqb n 0 = false) by (apply Nat.eqb_neq; lia).
  rewrite E. eexists. split; [reflexivity|].
  split; [now rewrite length_map, length_seq|].
  apply Forall_forall. intros b Hb.
  apply in_map_iff in Hb. destruct Hb as (i & <- & Hi). apply in_seq in Hi.
  destruct (band_bounds (length series) n i Hn ltac:(lia)) as (Hw & Hb & Hle).
  rewrite np_mean_nonempty by (rewrite py_slice_length; lia).
  eexists. reflexivity.
Qed.

(** Mode 1 on a spectrum of at least 120 values never raises and draws 120
    bars; each has a valid colour, and its inner end lies within the ring
    radius [min(WIDTH, HEIGHT) // 3] of the canvas centre in both
    coordinates. *)
Theorem circular_bars (self : AudioVisualizer) (fft_data : list R) :
  (120 <= length fft_data)%nat ->
  (0 <= WIDTH self)%Z -> (0 <= HEIGHT self)%Z ->
  exists segments : list Segment,
    draw_mode_1_circular self fft_data = Some segments
    /\ length segments = 120%nat
    /\ Forall (fun seg : Segment =>
                 valid_color (fst (fst seg))
                 /\ (Z.abs (fst (snd (fst seg)) - WIDTH self / 2)
                     <= Z.min (WIDTH self) (HEIGHT self) / 3)%Z
                 /\ (Z.abs (snd (snd (fst seg)) - HEIGHT self / 2)
                     <= Z.min (WIDTH self) (HEIGHT self) / 3)%Z)
              segments.
Proof.
  intros Hlen Hw Hh.
  destruct (bands_defined fft_data 120 ltac:(lia)) as (bands & Hb & Hl & Hdef).
  unfold draw_mode_1_circular. rewrite Hb. cbv zeta.
  match goal with
  | |- context [for_bands ?body 0 bands] =>
      destruct (for_bands_ok body bands Hdef 0) as (segments & E & L);
      pose proof (fun P H => for_bands_Forall P body bands 0 segments H E) as F
  end.
  rewrite E. exists segments. split; [reflexivity|]. split; [exact (eq_trans L Hl)|].
  apply F. intros k m _ _. cbn [fst snd].
  set (radius := (Z.min (WIDTH self) (HEIGHT self) / 3)%Z).
  assert (Hr : (0 <= radius)%Z) by (apply Z.div_pos; lia).
  apply IZR_le in Hr.
  split; [|split].
  - apply hsv_color_valid; try lra. apply py_mod1_range.
  - match goal with |- context [cos ?a] => pose proof (COS_bound a) as B end.
    match goal with |- context [py_int ?r] =>
      pose proof (py_int_symmetric r radius ltac:(nra)) end.
    lia.
  - match goal with |- context [sin ?a] => pose proof (SIN_bound a) as B end.
    match goal with |- context [py_int ?r] =>
      pose proof (py_int_symmetric r radius ltac:(nra)) end.
    lia.
Qed.

Lemma circular_bars_witness :
  exists segments : list Segment,
    draw_mode_1_circular (init 1600 900) (repeat 7 1024) = Some segments
    /\ length segments = 120%nat.
Proof.
  destruct (circular_bars (init 1600 900) (repeat 7 1024)) as (segs & A & B & _).
  - rewrite repeat_length. lia.
  - simpl. lia.
  - simpl. lia.
  - exists segs. split; assumption.
Defined.

Lemma in_py_range (j n : Z) : In j (py_range n) -> (0 <= j < n)%Z.
Proof.
  unfold py_range. intros H. apply in_map_iff in H.
  destruct H as (k & <- & Hk). apply in_seq in Hk. lia.
Qed.

(** Mode 2 on a spectrum of at least 80 values, with a positive height,
    never raises and draws 80 bars.  A bar has at most [HEIGHT - 20] rows;
    every row is a horizontal segment of a valid colour, [WIDTH // 80 - 2]
    long, that starts at [x >= 0], ends at or before [WIDTH - 2] and
    lies on a line [20 < y <= HEIGHT]. *)
Theorem spectrum_bars (self : AudioVisualizer) (fft_data : list R) :
  (80 <= length fft_data)%nat ->
  (0 <= WIDTH self)%Z -> (0 < HEIGHT self)%Z ->
  exists bars : list (list Segment),
    draw_mode_2_spectrum self fft_data = Some bars
    /\ length bars = 80%nat
    /\ Forall (fun bar : list Segment =>
                 (Z.of_nat (length bar) <= Z.max 0 (HEIGHT self - 20))%Z
                 /\ Forall (fun seg : Segment =>
                              valid_color (fst (fst seg))
                              /\ (0 <= fst (snd (fst seg)))%Z
                              /\ (fst (snd seg)
                                  = fst (snd (fst seg)) + WIDTH self / 80 - 2)%Z
                              /\ (fst (snd seg) <= WIDTH self - 2)%Z
                              /\ snd (snd seg) = snd (snd (fst seg))
                              /\ (20 < snd (snd seg) <= HEIGHT self)%Z)
                           bar)
              bars.
Proof.
  intros Hlen Hw Hh.
  destruct (bands_defined fft_data 80 ltac:(lia)) as (bands & Hb & Hl & Hdef).
  unfold draw_mode_2_spectrum. rewrite Hb.
  assert (E0 : (HEIGHT self =? 0)%Z = false) by (apply Z.eqb_neq; lia).
  rewrite E0. cbv zeta. rewrite Hl. change (Z.of_nat 80) with 80%Z.
  match goal with
  | |- context [for_bands ?body 0 bands] =>
      destruct (for_bands_ok body bands Hdef 0) as (bars & E & L);
      pose proof (fun P H => for_bands_Forall P body bands 0 bars H E) as F
  end.
  rewrite E. exists bars. split; [reflexivity|]. split; [exact (eq_trans L Hl)|].
  apply F. intros k m Hk _. rewrite Hl in Hk. cbn [Nat.add].
  set (bh := Rmin (m * 4) (IZR (HEIGHT self - 20))).
  assert (Hbh : bh <= IZR (HEIGHT self - 20)) by apply Rmin_r.
  assert (Hrows : (py_int bh <= Z.max 0 (HEIGHT self - 20))%Z).
  { destruct (Rle_dec 0 bh) as [Hp|Hn].
    - pose proof (py_int_floor bh Hp) as [A _].
      assert (py_int bh <= HEIGHT self - 20)%Z by (apply le_IZR; lra). lia.
    - pose proof (py_int_nonpos bh ltac:(lra)). lia. }
  assert (Hbw : (0 <= WIDTH self / 80)%Z) by (apply Z.div_pos; lia).
  assert (Hfit : (80 * (WIDTH self / 80) <= WIDTH self)%Z)
    by (apply Z.mul_div_le; lia).
  split.
  - rewrite length_map. unfold py_range. rewrite length_map, length_seq. lia.
  - apply Forall_forall. intros seg Hseg.
    apply in_map_iff in Hseg. destruct Hseg as (j & <- & Hj).
    apply in_py_range in Hj. cbn [fst snd].
    assert (Hpos : 0 < bh).
    { destruct (Rlt_le_dec 0 bh) as [P|N]; [exact P|].
      pose proof (py_int_nonpos bh N). lia. }
    pose proof (py_int_floor bh ltac:(lra)) as [A _].
    assert (Hj1 : 0 <= IZR j) by (apply IZR_le; lia).
    assert (Hj2 : IZR j < IZR (py_int bh)) by (apply IZR_lt; lia).
    assert (Hq : 0 <= IZR j / bh < 1).
    { split.
      - apply Rmult_le_pos; [exact Hj1|]. left. now apply Rinv_0_lt_compat.
      - apply Rmult_lt_reg_r with (r := bh); [exact Hpos|].
        unfold Rdiv. rewrite Rmult_assoc, Rinv_l by lra. lra. }
    split; [|split; [|split; [|split; [|split]]]].
    + apply fade_valid; [|lra].
      apply hsv_color_valid; try lra. apply py_mod1_range.
    + nia.
    + reflexivity.
    + nia.
    + reflexivity.
    + lia.
Qed.

Lemma spectrum_bars_witness :
  exists bars : list (list Segment),
    draw_mode_2_spectrum (init 1600 900) (repeat 7 1024) = Some bars
    /\ length bars = 80%nat.
Proof.
  destruct (spectrum_bars (init 1600 900) (repeat 7 1024)) as (bars & A & B & _).
  - rewrite repeat_length. lia.
  - simpl. lia.
  - simpl. lia.
  - exists bars. split; assumption.
Defined.

(** Mode 4 on a spectrum of at least 200 values never raises and draws
    three polylines; each has a valid colour and 201 points, the last of
    which is the first again, so every ring is closed. *)
Theorem radial_rings (self : AudioVisualizer) (fft_data : list R) :
  (200 <= length fft_data)%nat ->
  exists rings : list ((Z * Z * Z) * list (Z * Z)),
    draw_mode_4_radial_wave self fft_data = Some rings
    /\ length rings = 3%nat
    /\ Forall (fun ring : (Z * Z * Z) * list (Z * Z) =>
                 valid_color (fst ring)
                 /\ length (snd ring) = 201%nat
                 /\ exists (first : Z * Z) (others : list (Z * Z)),
                      snd ring = first :: others ++ [first])
              rings.
Proof.
  intros Hlen.
  destruct (bands_defined fft_data 200 ltac:(lia)) as (bands & Hb & Hl & Hdef).
  unfold draw_mode_4_radial_wave. rewrite Hb. cbv zeta.
  repeat match goal with
  | |- context [for_bands ?body 0 bands] =>
      let l := fresh "l" in
      let E := fresh "E" in
      let L := fresh "L" in
      destruct (for_bands_ok body bands Hdef 0) as (l & E & L);
      rewrite E; rewrite Hl in L;
      destruct l as [|? ?]; [discriminate L|]; clear E
  end.
  eexists. split; [reflexivity|]. split; [reflexivity|].
  repeat constructor; cbn [fst snd];
    try (apply hsv_color_valid; try lra; apply py_mod1_range);
    try (rewrite length_app; cbn [length] in *; lia);
    try (eexists; eexists; reflexivity).
Qed.

Lemma radial_rings_witness :
  exists rings : list ((Z * Z * Z) * list (Z * Z)),
    draw_mode_4_radial_wave (init 1600 900) (repeat 7 1024) = Some rings
    /\ length rings = 3%nat.
Proof.
  destruct (radial_rings (init 1600 900) (repeat 7 1024)) as (rings & A & B & _).
  - rewrite repeat_length. lia.
  - exists rings. split; assumption.
Defined.

(** The circles of a call of the mode-5 builder: one per particle that
    survives the update; with lives of at most 60 and non-negative hues
    before the call, each circle has a valid colour and a radius of 1, 2
    or 3. *)
Theorem particle_circles (ps : list Particle) :
  Forall (fun p => (life p <= 60)%Z /\ 0 <= phue p) ps ->
  length (mode_5_circles ps) = length (update_spec ps)
  /\ Forall (fun c : (Z * Z * Z) * (Z * Z) * Z =>
               valid_color (fst (fst c)) /\ (1 <= snd c <= 3)%Z)
            (mode_5_circles ps).
Proof.
  intros H. unfold mode_5_circles. split; [apply length_map|].
  apply Forall_forall. intros c Hc.
  apply in_map_iff in Hc. destruct Hc as (q & <- & Hq).
  destruct (in_update_spec q ps Hq) as (p & Hp & -> & Hpos).
  rewrite Forall_forall in H. destruct (H p Hp) as [Hl Hh].
  rewrite life_particle_step in Hpos.
  unfold particle_circle. cbn [fst snd]. rewrite life_particle_step.
  cbn [particle_step phue].
  assert (A0 : 1 <= IZR (life p - 1)) by (apply IZR_le; lia).
  assert (A1 : IZR (life p - 1) <= 59) by (apply IZR_le; lia).
  split.
  - apply hsv_color_valid; lra.
  - pose proof (py_int_below (3 * (IZR (life p - 1) / 60)) 3 ltac:(lra)). lia.
Qed.

Lemma particle_circles_witness :
  let p := mkParticle 800 450 1 0 60 (1 / 2) in
  Forall (fun c : (Z * Z * Z) * (Z * Z) * Z =>
            valid_color (fst (fst c)) /\ (1 <= snd c <= 3)%Z)
         (mode_5_circles [p]).
Proof.
  intros p. apply (particle_circles [p]).
  repeat constructor; simpl; lra || lia.
Defined.

(** ** More on the detector and the tick *)

(** Only the first nine bins of the spectrum (the bass range
    [int(200 * 2048 / 44100)]) reach the detector: two spectra that agree on
    them get the same answer and leave the same state. *)
Theorem detect_beat_reads_nine_bins (self : AudioVisualizer) (s1 s2 : list R) :
  firstn 9 s1 = firstn 9 s2 ->
  detect_beat self s1 = detect_beat self s2.
Proof.
  intros H.
  assert (E : bass_energy s1 = bass_energy s2).
  { unfold bass_energy, py_slice. rewrite bass_range_eq. cbn [skipn Nat.sub].
    now rewrite H. }
  unfold detect_beat. now rewrite E.
Qed.

Lemma detect_beat_reads_nine_bins_witness :
  detect_beat (init 1600 900) [1; 2; 3; 4; 5; 6; 7; 8; 9; 100; 200]
  = detect_beat (init 1600 900) [1; 2; 3; 4; 5; 6; 7; 8; 9; 0].
Proof.
  apply detect_beat_reads_nine_bins. reflexivity.
Defined.

(** With a full history of non-negative energies, no cooldown and the
    threshold 1.3: a bass energy that does not exceed the mean of the
    nineteen newest energies of the history is never answered true, and one
    above twice that mean always is. *)
Theorem beat_margins (self : AudioVisualizer) (s : list R) :
  beat_cooldown self = 0%Z ->
  beat_threshold self = 13 / 10 ->
  length (beat_history self) = 20%nat ->
  Forall (fun v => 0 <= v) (beat_history self) ->
  (bass_energy s <= np_sum (skipn 1 (beat_history self)) / 19 ->
   fst (detect_beat self s) = false)
  /\ (bass_energy s > 2 * (np_sum (skipn 1 (beat_history self)) / 19) ->
      fst (detect_beat self s) = true).
Proof.
  intros Hcd Hth Hlen Hpos.
  destruct (detect_beat_idle self s Hcd) as [Hflag _].
  rewrite Hflag, Hth. rewrite deque_append_snoc by lia. rewrite Hlen.
  change (21 - 20)%nat with 1%nat.
  assert (HS : 0 <= np_sum (skipn 1 (beat_history self)))
    by (apply np_sum_nonneg, Forall_skipn, Hpos).
  set (r := skipn 1 (beat_history self)) in *.
  set (e := bass_energy s).
  assert (Hr : length r = 19%nat) by (unfold r; rewrite length_skipn; lia).
  rewrite np_mean_nonempty by (rewrite length_app; simpl; lia).
  rewrite np_sum_app, length_app, Hr.
  cbn [option_map gt_opt length Nat.add]. simpl np_sum.
  replace (INR 20) with 20 by (simpl; lra).
  split; intros H.
  - apply Rgtb_false. lra.
  - apply Rgtb_true. lra.
Qed.

Lemma beat_margins_witness :
  fst (detect_beat (set_beat_history (repeat 100 20) (init 1600 900)) [100]) = false
  /\ fst (detect_beat (set_beat_history (repeat 100 20) (init 1600 900)) [300]) = true.
Proof.
  assert (P : Forall (fun v => 0 <= v) (repeat 100 20)).
  { apply Forall_forall. intros v Hv. apply repeat_spec in Hv. lra. }
  split.
  - apply (proj1 (beat_margins (set_beat_history (repeat 100 20) (init 1600 900))
                    [100] eq_refl eq_refl eq_refl P)).
    rewrite bass_energy_singleton. simpl. lra.
  - apply (proj2 (beat_margins (set_beat_history (repeat 100 20) (init 1600 900))
                    [300] eq_refl eq_refl eq_refl P)).
    rewrite bass_energy_singleton. simpl. lra.
Defined.

(** ** The tick with its builders *)

Lemma draw_mode_1_ok (self : AudioVisualizer) (fft_data : list R) :
  (120 <= length fft_data)%nat ->
  exists segments : list Segment,
    draw_mode_1_circular self fft_data = Some segments.
Proof.
  intros Hlen.
  destruct (bands_defined fft_data 120 ltac:(lia)) as (bands & Hb & _ & Hdef).
  unfold draw_mode_1_circular. rewrite Hb. cbv zeta.
  match goal with
  | |- context [for_bands ?body 0 bands] =>
      destruct (for_bands_ok body bands Hdef 0) as (segments & E & _)
  end.
  rewrite E. now exists segments.
Qed.

Lemma draw_mode_2_ok (self : AudioVisualizer) (fft_data : list R) :
  (80 <= length fft_data)%nat ->
  HEIGHT self <> 0%Z ->
  exists bars : list (list Segment),
    draw_mode_2_spectrum self fft_data = Some bars.
Proof.
  intros Hlen Hh.
  destruct (bands_defined fft_data 80 ltac:(lia)) as (bands & Hb & _ & Hdef).
  unfold draw_mode_2_spectrum. rewrite Hb.
  assert (E0 : (HEIGHT self =? 0)%Z = false) by (now apply Z.eqb_neq).
  rewrite E0. cbv zeta.
  match goal with
  | |- context [for_bands ?body 0 bands] =>
      destruct (for_bands_ok body bands Hdef 0) as (bars & E & _)
  end.
  rewrite E. now exists bars.
Qed.

Lemma draw_mode_4_ok (self : AudioVisualizer) (fft_data : list R) :
  (200 <= length fft_data)%nat ->
  exists rings : list ((Z * Z * Z) * list (Z * Z)),
    draw_mode_4_radial_wave self fft_data = Some rings.
Proof.
  intros Hlen.
  destruct (bands_defined fft_data 200 ltac:(lia)) as (bands & Hb & Hl & Hdef).
  unfold draw_mode_4_radial_wave. rewrite Hb. cbv zeta.
  repeat match goal with
  | |- context [for_bands ?body 0 bands] =>
      let l := fresh "l" in
      let E := fresh "E" in
      let L := fresh "L" in
      destruct (for_bands_ok body bands Hdef 0) as (l & E & L);
      rewrite E; rewrite Hl in L;
      destruct l as [|? ?]; [discriminate L|]; clear E
  end.
  eexists. reflexivity.
Qed.

(** The tick written out for a state that is not paused, once the analysis
    and the detector have answered. *)
Lemma tick_running (self s1 : AudioVisualizer) (audio_data : list Z)
  (fft : list R) :
  paused self = false ->
  analyze_audio self audio_data = Some (fft, s1) ->
  let s4 := set_hue (py_mod1 (hue (snd (detect_beat s1 fft)) + 2 / 1000))
              (set_beat_detected (fst (detect_beat s1 fft))
                 (snd (detect_beat s1 fft))) in
  tick self audio_data
  = if (mode s4 =? 1)%Z then
      option_map (fun _ => s4) (draw_mode_1_circular s4 fft)
    else if (mode s4 =? 2)%Z then
      option_map (fun _ => s4) (draw_mode_2_spectrum s4 fft)
    else if (mode s4 =? 3)%Z then
      option_map (fun _ => s4) (draw_mode_3_waveform s4 audio_data)
    else if (mode s4 =? 4)%Z then
      option_map (fun _ => s4) (draw_mode_4_radial_wave s4 fft)
    else if (mode s4 =? 5)%Z then draw_mode_5_particles s4 fft
    else Some s4.
Proof.
  intros P A. unfold tick. rewrite P, A. cbn [negb].
  destruct (detect_beat s1 fft) as [b s2]. reflexivity.
Qed.

(** A tick never changes the mode, the pause flag, the canvas size or the
    threshold: only events move the mode and the pause flag. *)
Theorem tick_keeps_mode_and_pause (self self' : AudioVisualizer)
  (audio_data : list Z) :
  tick self audio_data = Some self' ->
  mode self' = mode self
  /\ paused self' = paused self
  /\ WIDTH self' = WIDTH self
  /\ HEIGHT self' = HEIGHT self
  /\ beat_threshold self' = beat_threshold self.
Proof.
  destruct (paused self) eqn:P.
  { rewrite tick_paused by exact P. intros [= <-]. rewrite P. auto. }
  destruct (analyze_audio self audio_data) as [[fft s1]|] eqn:A.
  2:{ unfold tick. rewrite P, A. discriminate. }
  rewrite (tick_running self s1 audio_data fft P A). cbv zeta.
  destruct (analyze_audio_frame self s1 audio_data fft A) as (s & ->).
  set (s1 := set_freq_smooth (deque_append 3 (freq_smooth self) s) self) in *.
  pose proof (detect_beat_frame s1 fft) as Fr.
  set (s4 := set_hue _ _).
  assert (K : mode s4 = mode self /\ paused s4 = false
              /\ WIDTH s4 = WIDTH self /\ HEIGHT s4 = HEIGHT self
              /\ beat_threshold s4 = beat_threshold self).
  { unfold s4. rewrite Fr. simpl. auto. }
  destruct (mode s4 =? 1)%Z.
  { destruct (draw_mode_1_circular _ _); cbn [option_map]; [|discriminate].
    intros [= <-]. exact K. }
  destruct (mode s4 =? 2)%Z.
  { destruct (draw_mode_2_spectrum _ _); cbn [option_map]; [|discriminate].
    intros [= <-]. exact K. }
  destruct (mode s4 =? 3)%Z.
  { destruct (draw_mode_3_waveform _ _); cbn [option_map]; [|discriminate].
    intros [= <-]. exact K. }
  destruct (mode s4 =? 4)%Z.
  { destruct (draw_mode_4_radial_wave _ _); cbn [option_map]; [|discriminate].
    intros [= <-]. exact K. }
  destruct (mode s4 =? 5)%Z.
  2:{ intros [= <-]. exact K. }
  intros D5. destruct (draw_mode_5_cases _ _ _ D5) as (grp & -> & _).
  exact K.
Qed.

(** ** A failing audio device *)

Lemma compressed_spectrum_silence :
  compressed_spectrum (get_audio_data None) = Some (repeat 0 1024).
Proof.
  unfold get_audio_data.
  rewrite compressed_spectrum_zero by (vm_compute; lia). reflexivity.
Qed.

Lemma mean_axis0_zeros (n m : nat) :
  mean_axis0 (repeat (repeat 0 n) (S m)) = Some (repeat 0 n).
Proof.
  cbn [repeat]. rewrite mean_axis0_spec.
  - f_equal. rewrite repeat_length.
    transitivity (map (fun _ : nat => 0) (seq 0 n)).
    + apply map_ext. intros j.
      change (repeat 0 n :: repeat (repeat 0 n) m) with (repeat (repeat 0 n) (S m)).
      rewrite np_sum_zero.
      * unfold Rdiv. lra.
      * intros r Hr. apply repeat_spec in Hr. subst r. apply nth_repeat_zero.
    + now rewrite map_const, length_seq.
  - apply Forall_forall. intros r Hr. apply repeat_spec in Hr. now subst r.
Qed.

Lemma bass_energy_repeat (u : R) (n : nat) :
  (9 <= n)%nat -> bass_energy (repeat u n) = u * 9.
Proof.
  intros H. unfold bass_energy, py_slice. rewrite bass_range_eq. cbn [skipn Nat.sub].
  rewrite firstn_repeat_le by exact H. rewrite np_sum_repeat. simpl. lra.
Qed.

Lemma analyze_silence (self : AudioVisualizer) (k : nat) :
  freq_smooth self = repeat (repeat 0 1024) k ->
  analyze_audio self (get_audio_data None)
  = Some (repeat 0 1024,
          set_freq_smooth (repeat (repeat 0 1024) (Nat.min (S k) 3)) self).
Proof.
  intros H. unfold analyze_audio.
  rewrite compressed_spectrum_silence, H, deque_append_repeat.
  change (freq_smooth (set_freq_smooth ?v _)) with v.
  destruct (Nat.min (S k) 3) as [|m] eqn:E; [lia|].
  now rewrite mean_axis0_zeros.
Qed.

Lemma detect_silence (self : AudioVisualizer) (j : nat) :
  beat_history self = repeat 0 j ->
  beat_threshold self = 13 / 10 ->
  beat_cooldown self = 0%Z ->
  detect_beat self (repeat 0 1024)
  = (false, set_beat_history (repeat 0 (Nat.min (S j) 20)) self).
Proof.
  intros Hh Ht Hc. unfold detect_beat. cbv zeta.
  change (beat_cooldown (set_beat_history _ self)) with (beat_cooldown self).
  change (beat_threshold (set_beat_history _ self)) with (beat_threshold self).
  change (beat_history (set_beat_history ?v self)) with v.
  rewrite Hc, Ht, Hh, bass_energy_repeat by lia.
  replace (0 * 9) with 0 by lra.
  rewrite deque_append_repeat.
  change (0 <? 0)%Z with false. cbv iota.
  destruct (Nat.min (S j) 20) as [|m] eqn:E; [lia|].
  rewrite np_mean_repeat. cbn [option_map gt_opt].
  rewrite Rgtb_false by lra. reflexivity.
Qed.

Lemma waveform_fits (self : AudioVisualizer) (audio_data : list Z) :
  (1 <= WIDTH self <= Z.of_nat (length audio_data))%Z ->
  exists points : list (Z * Z), draw_mode_3_waveform self audio_data = Some points.
Proof.
  intros H. unfold draw_mode_3_waveform.
  assert (E0 : (WIDTH self =? 0)%Z = false) by (apply Z.eqb_neq; lia).
  assert (S1 : (1 <= Z.of_nat (length audio_data) / WIDTH self)%Z).
  { apply Z.div_le_lower_bound; lia. }
  assert (E1 : (Z.of_nat (length audio_data) / WIDTH self =? 0)%Z = false)
    by (apply Z.eqb_neq; lia).
  assert (E2 : (Z.of_nat (length audio_data) / WIDTH self <? 0)%Z = false)
    by (apply Z.ltb_ge; lia).
  rewrite E0, E1, E2. eexists. reflexivity.
Qed.

Lemma handle_event_silent (w h : Z) (rs : bool * AudioVisualizer) (ev : Event) :
  silent_state w h (snd rs) -> silent_state w h (snd (handle_event rs ev)).
Proof.
  destruct rs as [running self]. cbn [snd]. intros H.
  destruct ev as [|key|]; cbn [handle_event]; auto.
  destruct (key =? K_ESCAPE)%Z; [exact H|].
  destruct (key =? K_SPACE)%Z; [exact H|].
  destruct ((K_1 <=? key) && (key <=? K_5))%Z; [|exact H].
  destruct H as (H1 & H2 & H3 & H4 & H5 & H6 & H7 & H8).
  unfold silent_state. cbn [snd]. simpl. tauto.
Qed.

Lemma handle_events_silent (w h : Z) (events : list Event) :
  forall rs : bool * AudioVisualizer,
    silent_state w h (snd rs) -> silent_state w h (snd (handle_events rs events)).
Proof.
  induction events as [|ev events IH]; intros rs H; simpl.
  - exact H.
  - apply IH. now apply handle_event_silent.
Qed.

Lemma tick_silent (w h : Z) (self : AudioVisualizer) :
  (1 <= w <= 2048)%Z -> h <> 0%Z ->
  silent_state w h self ->
  exists self' : AudioVisualizer,
    tick self (get_audio_data None) = Some self' /\ silent_state w h self'.
Proof.
  intros Hw Hh Hs.
  destruct (paused self) eqn:P.
  { rewrite tick_paused by exact P. now exists self. }
  destruct Hs as (H1 & H0 & (k & Hk & H2) & (j & Hj & H3) & H4 & H5 & H6 & H7).
  rewrite (tick_running self _ _ _ P (analyze_silence self k H2)). cbv zeta.
  set (s1 := set_freq_smooth (repeat (repeat 0 1024) (Nat.min (S k) 3)) self).
  rewrite (detect_silence s1 j H3 H4 H5). cbn [fst snd].
  set (s4 := set_hue _ _).
  assert (S4 : silent_state w h s4).
  { unfold silent_state, s4, s1. simpl.
    split; [exact H1|]. split; [exact H0|].
    split; [exists (Nat.min (S k) 3); split; [lia | reflexivity]|].
    split; [exists (Nat.min (S j) 20); split; [lia | reflexivity]|].
    tauto. }
  assert (L : length (repeat 0 1024) = 1024%nat) by apply repeat_length.
  destruct (mode s4 =? 1)%Z.
  { destruct (draw_mode_1_ok s4 (repeat 0 1024) ltac:(lia)) as (x & ->).
    now exists s4. }
  destruct (mode s4 =? 2)%Z.
  { destruct (draw_mode_2_ok s4 (repeat 0 1024) ltac:(lia)) as (x & ->).
    - change (HEIGHT s4) with (HEIGHT self). now rewrite H0.
    - now exists s4. }
  destruct (mode s4 =? 3)%Z.
  { destruct (waveform_fits s4 (get_audio_data None)) as (pts & Hp).
    - change (WIDTH s4) with (WIDTH self). rewrite H1.
      unfold get_audio_data. rewrite repeat_length.
      change (Z.of_nat (Z.to_nat CHUNK)) with 2048%Z. lia.
    - rewrite Hp. cbn [option_map]. now exists s4. }
  destruct (mode s4 =? 4)%Z.
  { destruct (draw_mode_4_ok s4 (repeat 0 1024) ltac:(lia)) as (x & ->).
    now exists s4. }
  destruct (mode s4 =? 5)%Z; [|now exists s4].
  unfold draw_mode_5_particles, spawn_particles.
  change (beat_detected s4) with false. cbv iota.
  rewrite update_particles_spec. cbn [option_map].
  change (particles s4) with (particles self). rewrite H7.
  change (update_spec []) with (@nil Particle).
  exists (set_particles [] s4). split; [reflexivity|].
  destruct S4 as (A & A0 & B & C & D & E & F & G).
  unfold silent_state. simpl. tauto.
Qed.

Lemma run_loop_silent (w h : Z) (passes : list (list Event)) :
  (1 <= w <= 2048)%Z -> h <> 0%Z ->
  forall self : AudioVisualizer,
    silent_state w h self ->
    exists self' : AudioVisualizer,
      run_loop self (map (fun events => (events, get_audio_data None)) passes)
      = Some self'
      /\ silent_state w h self'.
Proof.
  intros Hw Hh. induction passes as [|events passes IH]; intros self Hs.
  - exists self. split; [reflexivity | exact Hs].
  - cbn [map run_loop]. unfold run_iteration. cbn [fst snd].
    pose proof (handle_events_silent w h events (true, self) Hs) as H1.
    destruct (handle_events (true, self) events) as [running s1]. cbn [snd] in H1.
    destruct (tick_silent w h s1 Hw Hh H1) as (s2 & T & H2).
    rewrite T. cbn [option_map].
    destruct running; [now apply IH|].
    exists s2. split; [reflexivity | exact H2].
Qed.

(** With a device whose every read fails (so every frame is the substituted
    block of zeros), a canvas between 1 and 2048 wide and a height other
    than zero, the loop runs through any events in any mode without
    raising, never reports a beat and never holds a particle. *)
Theorem dead_device_no_beat (w h : Z) (passes : list (list Event)) :
  (1 <= w <= 2048)%Z ->
  h <> 0%Z ->
  exists self : AudioVisualizer,
    run_loop (init w h) (map (fun events => (events, get_audio_data None)) passes)
    = Some self
    /\ beat_detected self = false
    /\ beat_cooldown self = 0%Z
    /\ particles self = [].
Proof.
  intros Hw Hh.
  destruct (run_loop_silent w h passes Hw Hh (init w h)) as (self & R & S).
  - unfold silent_state. simpl.
    split; [reflexivity|]. split; [reflexivity|].
    split; [exists 0%nat; split; [lia | reflexivity]|].
    split; [exists 0%nat; split; [lia | reflexivity]|]. tauto.
  - exists self. destruct S as (_ & _ & _ & _ & _ & C & B & P). tauto.
Qed.

Lemma dead_device_no_beat_witness :
  exists self : AudioVisualizer,
    run_loop (init 1600 900)
      (map (fun events => (events, get_audio_data None))
           [[]; [KEYDOWN 50]; [KEYDOWN 53]; []; [KEYDOWN 51]; [KEYDOWN 52]; [QUIT]])
    = Some self
    /\ beat_detected self = false
    /\ beat_cooldown self = 0%Z
    /\ particles self = [].
Proof.
  apply (dead_device_no_beat 1600 900
           [[]; [KEYDOWN 50]; [KEYDOWN 53]; []; [KEYDOWN 51]; [KEYDOWN 52]; [QUIT]]).
  - lia.
  - lia.
Defined.

(** ** A run that spawns particles

    A silent frame followed by a frame holding one sample of 32000 and
    zeros (an impulse, whose spectrum is flat), in mode 5. *)

Lemma hamming_first (n : nat) :
  exists rest : list R,
    hamming (S (S n)) = 8 / 100 :: rest /\ length rest = S n.
Proof.
  unfold hamming. change (seq 0 (S (S n))) with (0%nat :: seq 1 (S n)).
  rewrite map_cons. eexists. split.
  - f_equal.
    replace (2 * PI * INR 0 / INR (S (S n) - 1)) with 0
      by (simpl INR; unfold Rdiv; ring).
    rewrite cos_0. lra.
  - now rewrite length_map, length_seq.
Qed.

Lemma nth_repeat_in {A : Type} (x d : A) (j m : nat) :
  (j < m)%nat -> nth j (repeat x m) d = x.
Proof.
  revert j; induction m as [|m IH]; intros [|j] H; simpl; try lia; auto.
  apply IH. lia.
Qed.

Lemma dft_impulse (a : R) (n k : nat) :
  dft_re (a :: repeat 0 n) k = a /\ dft_im (a :: repeat 0 n) k = 0.
Proof.
  unfold dft_re, dft_im. cbn [length seq map np_sum fold_right nth].
  split.
  - fold (np_sum (map (fun j => nth j (a :: repeat 0 n) 0
                               * cos (2 * PI * INR k * INR j
                                      / INR (S (length (repeat 0 n)))))
                      (seq 1 (length (repeat 0 n))))).
    rewrite np_sum_zero.
    + replace (2 * PI * INR k * INR 0 / INR (S (length (repeat 0 n)))) with 0
        by (simpl INR; unfold Rdiv; ring).
      rewrite cos_0. lra.
    + intros j Hj. apply in_seq in Hj. destruct j as [|j]; [lia|].
      cbn [nth]. rewrite nth_repeat_zero. lra.
  - fold (np_sum (map (fun j => - (nth j (a :: repeat 0 n) 0
                                  * sin (2 * PI * INR k * INR j
                                         / INR (S (length (repeat 0 n))))))
                      (seq 1 (length (repeat 0 n))))).
    rewrite np_sum_zero.
    + replace (2 * PI * INR k * INR 0 / INR (S (length (repeat 0 n)))) with 0
        by (simpl INR; unfold Rdiv; ring).
      rewrite sin_0. lra.
    + intros j Hj. apply in_seq in Hj. destruct j as [|j]; [lia|].
      cbn [nth]. rewrite nth_repeat_zero. lra.
Qed.

Lemma fft_abs_impulse (a : R) (n : nat) :
  0 <= a -> fft_abs (a :: repeat 0 n) = repeat a (S n).
Proof.
  intros Ha. unfold fft_abs.
  transitivity (map (fun _ : nat => a) (seq 0 (length (a :: repeat 0 n)))).
  - apply map_ext. intros k.
    destruct (dft_impulse a n k) as [-> ->].
    replace (a * a + 0 * 0) with (a * a) by lra.
    now apply sqrt_square.
  - rewrite map_const, length_seq. cbn [length]. now rewrite repeat_length.
Qed.

(** The spectrum of the impulse frame is flat. *)
Lemma compressed_spectrum_impulse :
  compressed_spectrum (32000%Z :: repeat 0%Z 2047)
  = Some (repeat (log_compress (25 / 10)) 1024).
Proof.
  rewrite compressed_spectrum_nonempty by discriminate.
  cbn [map length]. rewrite map_repeat, repeat_length.
  change (IZR 0) with 0.
  destruct (hamming_first 2046) as (rest & -> & Hrest).
  cbn [np_mul]. rewrite np_mul_zero by exact Hrest.
  rewrite fft_abs_impulse by lra.
  change (Z.to_nat (CHUNK / 2)) with 1024%nat.
  rewrite firstn_repeat_le by lia. rewrite !map_repeat.
  f_equal. f_equal. f_equal. unfold CHUNK. lra.
Qed.

Lemma loud_value : log_compress (25 / 10) / 2 > 5.
Proof.
  unfold log_compress, log10.
  replace (25 / 10 + 1) with (35 / 10) by lra.
  pose proof ln_10_pos as P.
  assert (H : ln 10 < ln (35 / 10) + ln (35 / 10)).
  { rewrite <- ln_mult by lra. apply ln_increasing; lra. }
  assert (Q : ln (35 / 10) / ln 10 > 1 / 2).
  { apply Rmult_lt_reg_r with (r := ln 10); [exact P|].
    unfold Rdiv at 2. rewrite Rmult_assoc, Rinv_l by lra. lra. }
  lra.
Qed.

Lemma mean_axis0_silence_then (v : R) (n : nat) :
  mean_axis0 [repeat 0 n; repeat v n] = Some (repeat (v / 2) n).
Proof.
  rewrite mean_axis0_spec
    by (constructor; [now rewrite !repeat_length | constructor]).
  f_equal. rewrite repeat_length.
  transitivity (map (fun _ : nat => v / 2) (seq 0 n)).
  - apply map_ext_in. intros j Hj. apply in_seq in Hj.
    cbn [map np_sum fold_right length].
    rewrite nth_repeat_zero, nth_repeat_in by lia. simpl INR. lra.
  - now rewrite map_const, length_seq.
Qed.

Lemma detect_after_silence (self : AudioVisualizer) (u : R) :
  beat_history self = [0] ->
  beat_threshold self = 13 / 10 ->
  beat_cooldown self = 0%Z ->
  u > 0 ->
  detect_beat self (repeat u 1024)
  = (true, set_beat_cooldown 10 (set_beat_history [0; u * 9] self)).
Proof.
  intros Hh Ht Hc Hu. unfold detect_beat. cbv zeta.
  change (beat_cooldown (set_beat_history _ self)) with (beat_cooldown self).
  change (beat_threshold (set_beat_history _ self)) with (beat_threshold self).
  change (beat_history (set_beat_history ?v self)) with v.
  rewrite Hc, Ht, Hh, bass_energy_repeat by lia.
  change (deque_append 20 [0] (u * 9)) with [0; u * 9].
  change (0 <? 0)%Z with false. cbv iota.
  cbn [np_mean option_map gt_opt length np_sum fold_right].
  rewrite Rgtb_true; [reflexivity|]. simpl INR. lra.
Qed.

(** The tick of the impulse frame, in mode 5, after one silent tick: a
    beat, and one particle for each of the 32 bands. *)
Lemma impulse_tick :
  let st1 := mkViz 1600 900 5 false (py_mod1 (0 + 2 / 1000)) [0] (13 / 10)
                   false 0 [repeat 0 1024] [] in
  exists st2 : AudioVisualizer,
    tick st1 (32000%Z :: repeat 0%Z 2047) = Some st2
    /\ beat_detected st2 = true
    /\ beat_cooldown st2 = 10%Z
    /\ length (beat_history st2) = 2%nat
    /\ length (freq_smooth st2) = 2%nat
    /\ length (particles st2) = 32%nat.
Proof.
  intros st1.
  set (u := log_compress (25 / 10) / 2).
  assert (Hu : u > 5) by apply loud_value.
  set (frame := (32000%Z :: repeat 0%Z 2047)).
  set (s1 := set_freq_smooth [repeat 0 1024; repeat (log_compress (25 / 10)) 1024] st1).
  assert (A2 : analyze_audio st1 frame = Some (repeat u 1024, s1)).
  { unfold analyze_audio, frame. rewrite compressed_spectrum_impulse.
    change (freq_smooth (set_freq_smooth ?v _)) with v.
    change (deque_append 3 (freq_smooth st1) (repeat (log_compress (25 / 10)) 1024))
      with [repeat 0 1024; repeat (log_compress (25 / 10)) 1024].
    now rewrite mean_axis0_silence_then. }
  set (s4 := set_hue (py_mod1 (py_mod1 (0 + 2 / 1000) + 2 / 1000))
               (set_beat_detected true
                  (set_beat_cooldown 10 (set_beat_history [0; u * 9] s1)))).
  set (bands := repeat (Some u) 32).
  set (st2 := set_particles (update_spec (spawn_from_bands s4 bands)) s4).
  assert (T2 : tick st1 frame = Some st2).
  { rewrite (tick_running st1 _ _ _ eq_refl A2). cbv zeta.
    rewrite (detect_after_silence s1 u eq_refl eq_refl eq_refl) by lra.
    cbn [fst snd].
    change (mode _ =? 1)%Z with false. change (mode _ =? 2)%Z with false.
    change (mode _ =? 3)%Z with false. change (mode _ =? 4)%Z with false.
    change (mode _ =? 5)%Z with true. cbv iota.
    change (draw_mode_5_particles s4 (repeat u 1024) = Some st2).
    unfold draw_mode_5_particles, spawn_particles.
    change (beat_detected s4) with true. cbv iota.
    rewrite bands_of_constant by lia. fold bands.
    rewrite update_particles_spec. reflexivity. }
  exists st2. split; [exact T2|].
  split; [reflexivity|]. split; [reflexivity|].
  split; [reflexivity|]. split; [reflexivity|].
  unfold st2. simpl particles.
  destruct (spawn_from_bands_spec s4 bands) as [L F].
  rewrite update_spec_fresh.
  - rewrite length_map, L. unfold bands.
    rewrite filter_loud_repeat by exact Hu. apply repeat_length.
  - eapply Forall_impl; [|exact F]. intros p (_ & _ & H). exact H.
Qed.

(** The two passes: the key 5 and a silent frame, then the impulse. *)
Lemma impulse_run :
  exists self : AudioVisualizer,
    run_loop (init 1600 900)
      [([KEYDOWN 53], get_audio_data None);
       ([], 32000%Z :: repeat 0%Z 2047)]
    = Some self
    /\ beat_detected self = true
    /\ beat_cooldown self = 10%Z
    /\ length (beat_history self) = 2%nat
    /\ length (freq_smooth self) = 2%nat
    /\ length (particles self) = 32%nat.
Proof.
  set (st0 := set_particles [] (set_mode 5 (init 1600 900))).
  set (st1 := mkViz 1600 900 5 false (py_mod1 (0 + 2 / 1000)) [0] (13 / 10)
                    false 0 [repeat 0 1024] []).
  assert (T1 : tick st0 (get_audio_data None) = Some st1).
  { rewrite (tick_running st0 _ _ _ eq_refl (analyze_silence st0 0 eq_refl)).
    cbv zeta.
    rewrite (detect_silence
               (set_freq_smooth (repeat (repeat 0 1024) (Nat.min 1 3)) st0) 0
               eq_refl eq_refl eq_refl).
    cbn [fst snd]. reflexivity. }
  destruct impulse_tick as (st2 & T2 & Rest). fold st1 in T2.
  assert (R1 : run_iteration (true, init 1600 900)
                 ([KEYDOWN 53], get_audio_data None) = Some (true, st1)).
  { unfold run_iteration. cbn [fst snd].
    change (handle_events (true, init 1600 900) [KEYDOWN 53]) with (true, st0).
    cbv iota beta. rewrite T1. reflexivity. }
  assert (R2 : run_iteration (true, st1) ([], 32000%Z :: repeat 0%Z 2047)
               = Some (true, st2)).
  { unfold run_iteration. cbn [fst snd handle_events fold_left].
    rewrite T2. reflexivity. }
  exists st2. split; [|exact Rest].
  cbn [run_loop]. rewrite R1. cbv iota beta. rewrite R2. reflexivity.
Qed.

Lemma particle_count_bounded_witness :
  exists self : AudioVisualizer,
    run_loop (init 1600 900)
      [([KEYDOWN 53], get_audio_data None);
       ([], 32000%Z :: repeat 0%Z 2047)]
    = Some self
    /\ length (particles self) = 32%nat
    /\ (length (particles self) <= 192)%nat
    /\ Forall (fun p => (1 <= life p <= 59)%Z /\ 0 <= phue p < 1) (particles self).
Proof.
  destruct impulse_run as (self & R & _ & _ & _ & _ & L).
  exists self. split; [exact R|]. split; [exact L|].
  destruct (particle_count_bounded 1600 900 _ self R) as (B & F & _).
  split; assumption.
Defined.

Lemma loop_state_ranges_witness :
  exists self : AudioVisualizer,
    run_loop (init 1600 900)
      [([KEYDOWN 53], get_audio_data None);
       ([], 32000%Z :: repeat 0%Z 2047)]
    = Some self
    /\ beat_cooldown self = 10%Z
    /\ length (beat_history self) = 2%nat
    /\ length (freq_smooth self) = 2%nat
    /\ (1 <= mode self <= 5)%Z
    /\ 0 <= hue self < 1.
Proof.
  destruct impulse_run as (self & R & _ & C & H & S & _).
  exists self. split; [exact R|]. split; [exact C|].
  split; [exact H|]. split; [exact S|].
  destruct (loop_state_ranges 1600 900 _ self R) as (M & U & _).
  split; assumption.
Defined.

Lemma tick_keeps_mode_and_pause_witness :
  let st1 := mkViz 1600 900 5 false (py_mod1 (0 + 2 / 1000)) [0] (13 / 10)
                   false 0 [repeat 0 1024] [] in
  exists st2 : AudioVisualizer,
    tick st1 (32000%Z :: repeat 0%Z 2047) = Some st2
    /\ beat_detected st2 = true
    /\ length (particles st2) = 32%nat
    /\ mode st2 = 5%Z
    /\ paused st2 = false.
Proof.
  intros st1.
  destruct impulse_tick as (st2 & T & B & _ & _ & _ & L). fold st1 in T.
  exists st2. split; [exact T|]. split; [exact B|]. split; [exact L|].
  destruct (tick_keeps_mode_and_pause st1 st2 _ T) as (M & P & _).
  split; [exact M | exact P].
Defined.
